(** * nchip8: the opcode dispatch engine and the execution scheduler

    A shallow embedding of the CHIP-8 interpreter core ([nchip8/cpu.hpp])
    and of the daemon that drives it on a worker thread
    ([nchip8/cpu_daemon.hpp], [nchip8/cpu_daemon.cpp]).

    Bytes, nibbles, addresses and instruction words are [Z]; arrays and
    vectors are lists; the four nested [std::unordered_map]s of the handler
    tree are four nested [gmap]s keyed by [option Z], where [None] is the
    [std::nullopt] key of an operand nibble. *)

From stdpp Require Import gmap list strings.

Open Scope Z_scope.

(** ** Machine state ([class cpu], data members) *)

(** Modelled from the spec: [cpu::screen_mode] is the type of what
    [cpu_daemon::get_screen_mode] returns, and its declaration is missing
    from cpu.hpp as it stands.  The two values are the spec's "standard
    64x32 vs extended 128x64". *)
Inductive screen_mode := standard | extended.

(** Modelled from the spec: the display, timer and key members of
    [class cpu].  cpu.hpp as it stands declares [m_ram] to [m_stack] only;
    cpu_daemon reads the others ([get_screen_mode],
    [get_screen_framebuffer], [get_dt], [get_st], [set_key_down]) and their
    shapes follow the spec's data model: a 128x64 boolean framebuffer, two
    8-bit timers, 16 key flags. *)
Record cpu := mk_cpu {
  m_ram : list Z;            (* std::array<std::uint8_t, 0x1000> *)
  m_gpr : list Z;            (* std::array<std::uint8_t, 16> *)
  m_i : Z;                   (* std::uint16_t *)
  m_pc : Z;                  (* std::uint16_t *)
  m_sp : Z;                  (* std::uint8_t *)
  m_stack : list Z;          (* std::array<std::uint16_t, 16> *)
  m_screen_mode : screen_mode;
  m_screen : list bool;      (* std::array<bool, 128*64> *)
  m_dt : Z;
  m_st : Z;
  m_keys : list bool
}.

(** ** The methods of [class cpu] the scheduler and the disassembler use *)

Module Cpu.

Definition memory_size : Z := 0x1000.

Definition set_ram (ram : list Z) (c : cpu) : cpu :=
  mk_cpu ram (m_gpr c) (m_i c) (m_pc c) (m_sp c) (m_stack c)
         (m_screen_mode c) (m_screen c) (m_dt c) (m_st c) (m_keys c).

(** Modelled from the spec: [cpu::reset] is defined in cpu.cpp, which is not
    among the sources.  "reset() clears memory, registers, stack, pc (to
    0x200), sp (to 0), and display"; what the sentence does not name is left
    as it is. *)
Definition reset (c : cpu) : cpu :=
  mk_cpu (replicate 0x1000 0) (replicate 16 0) (m_i c) 0x200 0
         (replicate 16 0) (m_screen_mode c) (replicate (128 * 64) false)
         (m_dt c) (m_st c) (m_keys c).

(** Modelled from the spec: [cpu::load_rom] is defined in cpu.cpp, which is
    not among the sources.  "load_rom validates that len(rom) + load_address
    <= memory_size, writes the ROM bytes in place, and fails (returns
    failure, state unchanged) otherwise".  The result pairs the returned
    [bool] with the machine after the call. *)
Definition load_rom (rom : list Z) (address : Z) (c : cpu) : bool * cpu :=
  if bool_decide (Z.of_nat (length rom) + address ≤ memory_size)
  then (true, set_ram (list_inserts (Z.to_nat address) rom (m_ram c)) c)
  else (false, c).

(** Modelled from the spec: [cpu::read_u16] is defined in cpu.cpp, which is
    not among the sources.  CHIP-8 instructions are two bytes, the most
    significant first; a byte outside the array reads as 0 here. *)
Definition read_u16 (c : cpu) (address : Z) : Z :=
  Z.lor (Z.shiftl (default 0 (m_ram c !! Z.to_nat address)) 8)
        (default 0 (m_ram c !! Z.to_nat (address + 1))).

End Cpu.

(** ** Opcode dispatch ([cpu::m_op_tree] and its lookups) *)

Module Dispatch.

(** [struct operand_data] *)
Record operand_data := mk_operand_data {
  m_nnn : Z;
  m_x : Z;
  m_y : Z;
  m_kk : Z;
  m_n : Z
}.

(** [func_execute_op]: [std::function<void(cpu &, const operand_data &)>]. *)
Definition func_execute_op : Type := cpu → operand_data → cpu.

(** [func_dasm_op]: [std::function<void(const operand_data &,
    std::stringstream &)>]; the stream is the text written so far. *)
Definition func_dasm_op : Type := operand_data → string → string.

(** [std::array<std::optional<std::uint8_t>, 4>] *)
Definition encoding : Type := option Z * option Z * option Z * option Z.

(** [struct op_handler] *)
Record op_handler := mk_op_handler {
  m_encoding : encoding;
  m_execute_op : func_execute_op;
  m_dasm_op : func_dasm_op
}.

(** The type of [cpu::m_op_tree]: "4 nested maps, indexed by each nibble of
    the instruction".  The tree holds functions over [cpu], so it is kept
    beside the record of data members rather than inside it. *)
Abbreviation level A := (gmap (option Z) A).
Abbreviation op_tree := (level (level (level (level op_handler)))).

(** The [k]-th nibble of a 16-bit instruction, most significant first. *)
Definition nibble (k : Z) (instruction : Z) : Z :=
  Z.land (Z.shiftr instruction (12 - 4 * k)) 0xF.

(** Modelled from the spec: the decoding of the operands is part of cpu.cpp.
    "addr12 = n1n2n3, x = n1, y = n2, imm8 = n2n3, small4 = n3". *)
Definition decode (instruction : Z) : operand_data :=
  mk_operand_data (Z.land instruction 0xFFF) (nibble 1 instruction)
                  (nibble 2 instruction) (Z.land instruction 0xFF)
                  (nibble 3 instruction).

(** Modelled from the spec: [cpu::add_op_handler] is defined in cpu.cpp,
    which is not among the sources.  "Registration of a handler declares its
    fixed/wildcard pattern per nibble"; the header gives the indexing,
    [m_op_tree[A][B][C][D]], and [operator[]] creates the inner maps that do
    not exist yet. *)
Definition add_op_handler (handler : op_handler) (t : op_tree) : op_tree :=
  let '(a, b, c, d) := m_encoding handler in
  let l1 := default ∅ (t !! a) in
  let l2 := default ∅ (l1 !! b) in
  let l3 := default ∅ (l2 !! c) in
  <[a := <[b := <[c := <[d := handler]> l3]> l2]> l1]> t.

(** The tree after the handlers of [hs] were added in that order. *)
Definition add_op_handlers (hs : list op_handler) (t : op_tree) : op_tree :=
  foldl (λ t h, add_op_handler h t) t hs.

(** Modelled from the spec: one level of the lookup, which is part of
    cpu.cpp.  "attempt the exact-value key first; if absent, attempt the
    wildcard key; if both absent, decoding fails at this level". *)
Definition find_key {A} (m : level A) (n : Z) : option A :=
  match m !! Some n with
  | Some v => Some v
  | None => m !! None
  end.

(** Modelled from the spec: [cpu::get_op_handler_for_instruction] is defined
    in cpu.cpp, which is not among the sources.  The lookup of the previous
    definition is "applied independently at each of the 4 levels", and a
    failure at any level makes "the overall lookup" return "no handler". *)
Definition get_op_handler_for_instruction (t : op_tree) (instruction : Z)
  : option op_handler :=
  l1 ← find_key t (nibble 0 instruction);
  l2 ← find_key l1 (nibble 1 instruction);
  l3 ← find_key l2 (nibble 2 instruction);
  find_key l3 (nibble 3 instruction).

(** Modelled from the spec: [cpu::dasm_op] is defined in cpu.cpp, which is
    not among the sources.  "Disassembly uses the same lookup to find a
    handler, then invokes its disassemble routine with the decoded operands
    to produce a human-readable mnemonic string".  Written in state-passing
    style: the second component is the machine after the call. *)
Definition dasm_op (t : op_tree) (address : Z) (c : cpu)
  : option string * cpu :=
  let instruction := Cpu.read_u16 c address in
  match get_op_handler_for_instruction t instruction with
  | Some h => (Some (m_dasm_op h (decode instruction) EmptyString), c)
  | None => (None, c)
  end.

(** *** Patterns *)

(** A key of a pattern agrees with a nibble when it is that nibble or the
    wildcard. *)
Definition key_matches (k : option Z) (n : Z) : bool :=
  match k with
  | Some v => bool_decide (v = n)
  | None => true
  end.

Definition matches (e : encoding) (instruction : Z) : bool :=
  let '(a, b, c, d) := e in
  key_matches a (nibble 0 instruction) && key_matches b (nibble 1 instruction)
  && key_matches c (nibble 2 instruction) && key_matches d (nibble 3 instruction).

Definition fully_fixed (e : encoding) : bool :=
  let '(a, b, c, d) := e in
  bool_decide (is_Some a) && bool_decide (is_Some b)
  && bool_decide (is_Some c) && bool_decide (is_Some d).

Definition is_wild (k : option Z) : bool := bool_decide (k = None).

(** [diverts q p instruction]: the pattern [q] takes the lookup of
    [instruction] away from the pattern [p].  At some level where [p] has a
    wildcard, [q] agrees with [p] on the levels before and has the nibble of
    the instruction itself as its key, so that the exact key is found there
    and the wildcard is never tried. *)
Definition diverts (q p : encoding) (instruction : Z) : bool :=
  let '(qa, qb, qc, qd) := q in
  let '(a, b, c, d) := p in
  (is_wild a && bool_decide (qa = Some (nibble 0 instruction)))
  || (bool_decide (qa = a) && is_wild b
      && bool_decide (qb = Some (nibble 1 instruction)))
  || (bool_decide (qa = a) && bool_decide (qb = b) && is_wild c
      && bool_decide (qc = Some (nibble 2 instruction)))
  || (bool_decide (qa = a) && bool_decide (qb = b) && bool_decide (qc = c)
      && is_wild d && bool_decide (qd = Some (nibble 3 instruction))).

Definition undiverted (hs : list op_handler) (p : encoding) (instruction : Z)
  : bool :=
  forallb (λ q, negb (diverts (m_encoding q) p instruction)) hs.

(** *** Paths in the tree *)

(** What the tree holds under one, two, three and four keys. *)
Definition path1 (t : op_tree) (a : option Z) := t !! a.
Definition path2 (t : op_tree) (a b : option Z) := path1 t a ≫= (.!! b).
Definition path3 (t : op_tree) (a b c : option Z) := path2 t a b ≫= (.!! c).
Definition path4 (t : op_tree) (e : encoding) : option op_handler :=
  let '(a, b, c, d) := e in path3 t a b c ≫= (.!! d).

(** *** The operation handlers declared in cpu.hpp *)

(** Modelled from the spec: the static [op_handler] members are declared in
    cpu.hpp with their encodings in comments ([00E0 - CLS], [0nnn - SYS
    addr], ...); their definitions are in cpu.cpp, which is not among the
    sources.  Dispatch reads [m_encoding] only.  The two routines are
    placeholders: executing leaves the machine as it is, disassembling
    writes the mnemonic of the header's comment. *)
Definition declared (e : encoding) (mnemonic : string) : op_handler :=
  mk_op_handler e (λ c _, c) (λ _ ss, ss +:+ mnemonic).

Definition CLS := declared (Some 0x0, Some 0x0, Some 0xE, Some 0x0) "CLS".
Definition RET := declared (Some 0x0, Some 0x0, Some 0xE, Some 0xE) "RET".
Definition SYS := declared (Some 0x0, None, None, None) "SYS addr".
Definition JP := declared (Some 0x1, None, None, None) "JP addr".
Definition CALL := declared (Some 0x2, None, None, None) "CALL addr".
Definition SE_VX_KK := declared (Some 0x3, None, None, None) "SE Vx, byte".
Definition SNE_VX_KK := declared (Some 0x4, None, None, None) "SNE Vx, byte".
Definition SE_VX_VY := declared (Some 0x5, None, None, Some 0x0) "SE Vx, Vy".
Definition LD_VX_KK := declared (Some 0x6, None, None, None) "LD Vx, byte".
Definition ADD_VX_KK := declared (Some 0x7, None, None, None) "ADD Vx, byte".
Definition LD_VX_VY := declared (Some 0x8, None, None, Some 0x0) "LD Vx, Vy".
Definition OR_VX_Y := declared (Some 0x8, None, None, Some 0x1) "OR Vx, Vy".
Definition AND_VX_VY := declared (Some 0x8, None, None, Some 0x2) "AND Vx, Vy".
Definition XOR_VX_VY := declared (Some 0x8, None, None, Some 0x3) "XOR Vx, Vy".
Definition ADD_VX_VY := declared (Some 0x8, None, None, Some 0x4) "ADD Vx, Vy".
Definition SUB_VX_VY := declared (Some 0x8, None, None, Some 0x5) "SUB Vx, Vy".
Definition SHR_VX_VY := declared (Some 0x8, None, None, Some 0x6) "SHR Vx {, Vy}".
Definition SUBN_VX_VY := declared (Some 0x8, None, None, Some 0x7) "SUBN Vx, Vy".
Definition SHL_VX_VY := declared (Some 0x8, None, None, Some 0xE) "SHL Vx {, Vy}".
Definition SNE_VX_VY := declared (Some 0x9, None, None, Some 0x0) "SNE Vx, Vy".
Definition LD_I_NNN := declared (Some 0xA, None, None, None) "LD I, addr".
Definition JP_V0_NNN := declared (Some 0xB, None, None, None) "JP V0, addr".
Definition RND_VX_KK := declared (Some 0xC, None, None, None) "RND Vx, byte".
Definition DRW_VX_VY_N := declared (Some 0xD, None, None, None) "DRW Vx, Vy, nibble".
Definition SKP_VX := declared (Some 0xE, None, Some 0x9, Some 0xE) "SKP Vx".
Definition SKNP_VX := declared (Some 0xE, None, Some 0xA, Some 0x1) "SKNP Vx".
Definition LD_VX_DT := declared (Some 0xF, None, Some 0x0, Some 0x7) "LD Vx, DT".
Definition LD_VX_K := declared (Some 0xF, None, Some 0x0, Some 0xA) "LD Vx, K".
Definition LD_DT_VX := declared (Some 0xF, None, Some 0x1, Some 0x5) "LD DT, Vx".
Definition LD_ST_VX := declared (Some 0xF, None, Some 0x1, Some 0x8) "LD ST, Vx".
Definition ADD_I_VX := declared (Some 0xF, None, Some 0x1, Some 0xE) "ADD I, Vx".
Definition LD_F_VX := declared (Some 0xF, None, Some 0x2, Some 0x9) "LD F, Vx".
Definition LD_B_VX := declared (Some 0xF, None, Some 0x3, Some 0x3) "LD B, Vx".
Definition LD_imm_I_VX := declared (Some 0xF, None, Some 0x5, Some 0x5) "LD [I], Vx".
Definition LD_VX_imm_I := declared (Some 0xF, None, Some 0x6, Some 0x5) "LD Vx, [I]".

Definition op_handlers : list op_handler :=
  [ CLS; RET; SYS; JP; CALL; SE_VX_KK; SNE_VX_KK; SE_VX_VY; LD_VX_KK;
    ADD_VX_KK; LD_VX_VY; OR_VX_Y; AND_VX_VY; XOR_VX_VY; ADD_VX_VY; SUB_VX_VY;
    SHR_VX_VY; SUBN_VX_VY; SHL_VX_VY; SNE_VX_VY; LD_I_NNN; JP_V0_NNN;
    RND_VX_KK; DRW_VX_VY_N; SKP_VX; SKNP_VX; LD_VX_DT; LD_VX_K; LD_DT_VX;
    LD_ST_VX; ADD_I_VX; LD_F_VX; LD_B_VX; LD_imm_I_VX; LD_VX_imm_I ].

(** Modelled from the spec: [cpu::setup_op_handlers] is defined in cpu.cpp,
    which is not among the sources.  "Add all the CHIP-8 operation handlers
    to the operation tree" (cpu.hpp); the handlers are taken in the order of
    their declaration. *)
Definition setup_op_handlers (t : op_tree) : op_tree :=
  add_op_handlers op_handlers t.

End Dispatch.
Export Dispatch.

(** ** The execution scheduler ([class cpu_daemon]) *)

Module Daemon.

(** [enum cpu_state] *)
Inductive cpu_state := paused | running.

(** Modelled from the spec: [enum cpu_message_type] is declared in
    cpu_message.hpp, which is not among the sources.  [LoadROM],
    [SetStateRunning] and the end marker [_last] are the names
    cpu_daemon.cpp uses; the other four are the remaining kinds of the
    spec's command surface ("LoadRom, SetRunning, SetPaused, KeyDown, KeyUp,
    SetClockSpeed"). *)
Inductive cpu_message_type :=
  | LoadROM
  | SetStateRunning
  | SetStatePaused
  | KeyDown
  | KeyUp
  | SetClockSpeed
  | _last.

#[global] Instance cpu_message_type_eq_dec : EqDecision cpu_message_type.
Proof. solve_decision. Defined.

(** The value of an enumerator, as used to index [m_message_handlers]. *)
Definition type_index (type : cpu_message_type) : nat :=
  match type with
  | LoadROM => 0
  | SetStateRunning => 1
  | SetStatePaused => 2
  | KeyDown => 3
  | KeyUp => 4
  | SetClockSpeed => 5
  | _last => 6
  end.

(** Modelled from the spec: [struct cpu_message] is declared in
    cpu_message.hpp, which is not among the sources.  cpu_daemon.cpp reads
    [m_type] and [m_data]; [m_address] is the load address of the spec's
    [load_rom(bytes, address)] command. *)
Record cpu_message := mk_cpu_message {
  m_type : cpu_message_type;
  m_data : list Z;           (* std::vector<std::uint8_t> *)
  m_address : Z
}.

(** The members of [cpu_daemon] that a message handler, a closure over
    [this], reads and writes. *)
Record scheduler := mk_scheduler {
  m_clock_speed : Z;         (* std::size_t m_clock_speed = 500 *)
  m_cpu : cpu;
  m_cpu_state : cpu_state
}.

(** [cpu_message_handler]: a [void] function of the message, acting on the
    scheduler it captured.  A handler does not touch the queue or the table
    of handlers: [std::mutex] is not recursive and the table is being
    iterated over while it runs. *)
Definition cpu_message_handler : Type := cpu_message → scheduler → scheduler.

(** [class cpu_daemon]: the scheduler, the queue (front first) and the
    handlers, "first indexed by type, and then by each handler for that
    type". *)
Record cpu_daemon := mk_cpu_daemon {
  m_scheduler : scheduler;
  m_unhandled_messages : list cpu_message;
  m_message_handlers : list (list cpu_message_handler)
}.

(** What a thread does, in program order. *)
Inductive event :=
  | EvLock                   (* std::lock_guard on m_cpu_thread_mutex built *)
  | EvUnlock                 (* ... and destroyed at the end of its scope *)
  | EvPush (msg : cpu_message)
  | EvPop
  | EvCall (type : cpu_message_type) (i : nat) (msg : cpu_message)
                             (* handler(msg), i-th handler of the type *)
  | EvExecute                (* m_cpu.execute_op_at_pc() *)
  | EvSleep (ms : Z)         (* std::this_thread::sleep_for(milliseconds) *)
  | EvThrow.                 (* std::out_of_range leaves the function *)

(** A call returns, or [std::vector::at] throws. *)
Inductive result (A : Type) :=
  | Ok (a : A)
  | out_of_range.
Arguments Ok {A} a.
Arguments out_of_range {A}.

(** Code that leaves a trace of events and may throw. *)
Definition run (A : Type) : Type := list event * result A.

#[global] Instance run_ret : MRet run := λ A a, ([], Ok a).
#[global] Instance run_bind : MBind run := λ A B f m,
  match m with
  | (tr, Ok a) => let '(tr', r) := f a in (tr ++ tr', r)
  | (tr, out_of_range) => (tr, out_of_range)
  end.

Definition emit (e : event) : run unit := ([e], Ok tt).

(** [v.at(i)] *)
Definition at_ {A} (v : list A) (i : nat) : run A :=
  match v !! i with
  | Some a => ([], Ok a)
  | None => ([EvThrow], out_of_range)
  end.

Definition set_scheduler (s : scheduler) (d : cpu_daemon) : cpu_daemon :=
  mk_cpu_daemon s (m_unhandled_messages d) (m_message_handlers d).

Definition set_unhandled_messages (q : list cpu_message) (d : cpu_daemon)
  : cpu_daemon :=
  mk_cpu_daemon (m_scheduler d) q (m_message_handlers d).

Definition get_cpu_state (s : scheduler) : cpu_state := m_cpu_state s.

Definition set_cpu_state (state : cpu_state) (s : scheduler) : scheduler :=
  mk_scheduler (m_clock_speed s) (m_cpu s) state.

Definition set_cpu (c : cpu) (s : scheduler) : scheduler :=
  mk_scheduler (m_clock_speed s) c (m_cpu_state s).

(** [cpu_daemon::register_message_handler]:
    [m_message_handlers.at(type).push_back(hdl)]. *)
Definition register_message_handler (type : cpu_message_type)
    (hdl : cpu_message_handler) (d : cpu_daemon) : result cpu_daemon :=
  match m_message_handlers d !! type_index type with
  | Some hs =>
      Ok (mk_cpu_daemon (m_scheduler d) (m_unhandled_messages d)
            (<[type_index type := hs ++ [hdl]]> (m_message_handlers d)))
  | None => out_of_range
  end.

(** [cpu_daemon::send_message], on the caller's thread: the guard, the push,
    the end of the guard's scope. *)
Definition send_message (message : cpu_message) (d : cpu_daemon)
  : list event * cpu_daemon :=
  ([EvLock; EvPush message; EvUnlock],
   set_unhandled_messages (m_unhandled_messages d ++ [message]) d).

(** [for (auto &handler : m_message_handlers.at(msg.m_type)) handler(msg);] *)
Fixpoint call_handlers (msg : cpu_message) (i : nat)
    (hs : list cpu_message_handler) (s : scheduler) : run scheduler :=
  match hs with
  | [] => mret s
  | handler :: hs' =>
      _ ← emit (EvCall (m_type msg) i msg);
      call_handlers msg (S i) hs' (handler msg s)
  end.

(** The body of [while (!m_unhandled_messages.empty())] in
    [cpu_daemon::cpu_thread], for the message [msg] at the front. *)
Definition handle_front (table : list (list cpu_message_handler))
    (msg : cpu_message) (s : scheduler) : run scheduler :=
  _ ← emit EvLock;
  hs ← at_ table (type_index (m_type msg));
  s' ← (if bool_decide (0 < length hs)%nat
        then call_handlers msg 0 hs s
        else mret s);
  _ ← emit EvPop;
  _ ← emit EvUnlock;
  mret s'.

(** [while (!m_unhandled_messages.empty()) { ... }]: each pass handles the
    front of the queue and pops it. *)
Fixpoint drain (table : list (list cpu_message_handler))
    (queue : list cpu_message) (s : scheduler) : run scheduler :=
  match queue with
  | [] => mret s
  | msg :: queue' =>
      s' ← handle_front table msg s;
      drain table queue' s'
  end.

Definition drain_queue (d : cpu_daemon) : run cpu_daemon :=
  s ← drain (m_message_handlers d) (m_unhandled_messages d) (m_scheduler d);
  mret (mk_cpu_daemon s [] (m_message_handlers d)).

(** The caller sends [msg] and the worker then empties the queue. *)
Definition deliver (msg : cpu_message) (d : cpu_daemon) : run cpu_daemon :=
  drain_queue (snd (send_message msg d)).

Section Worker.

(** The methods of [m_cpu] the daemon calls.  They are defined in cpu.cpp,
    which is not among the sources, and the scheduler is modelled for any
    implementation of them.  [load_rom] returns its [bool] together with the
    machine after the call. *)
Variable reset : cpu → cpu.
Variable load_rom : list Z → Z → cpu → bool * cpu.
Variable execute_op_at_pc : cpu → cpu.

(** The handler the constructor registers for [LoadROM]:
    [m_cpu.reset(); m_cpu.load_rom(msg.m_data, 0x200);]
    The value [load_rom] returns is not used.  The lines the handlers write
    to [nchip8::log] are left out. *)
Definition on_LoadROM : cpu_message_handler := λ msg s,
  let c := reset (m_cpu s) in
  let '(_, c) := load_rom (m_data msg) 0x200 c in
  set_cpu c s.

(** The handler the constructor registers for [SetStateRunning]:
    [this->set_cpu_state(cpu_state::running);] *)
Definition on_SetStateRunning : cpu_message_handler := λ msg s,
  set_cpu_state running s.

(** [cpu_daemon::cpu_daemon()], up to the start of the thread.  [c] is the
    machine as [cpu::cpu()] leaves it. *)
Definition cpu_daemon_new (c : cpu) : result cpu_daemon :=
  let d := mk_cpu_daemon (mk_scheduler 500 c paused) []
             (replicate (type_index _last) []) in
  match register_message_handler LoadROM on_LoadROM d with
  | Ok d => register_message_handler SetStateRunning on_SetStateRunning d
  | out_of_range => out_of_range
  end.

(** The daemons whose handlers are the ones the constructor registered. *)
Definition as_constructed (d : cpu_daemon) : Prop :=
  ∃ c d0, cpu_daemon_new c = Ok d0
          ∧ m_message_handlers d = m_message_handlers d0.

(** What the handlers the constructor registered make of a message: the
    two bodies above for their two types, nothing for the other types. *)
Definition effect (msg : cpu_message) (s : scheduler) : scheduler :=
  match m_type msg with
  | LoadROM =>
      set_cpu (snd (load_rom (m_data msg) 0x200 (reset (m_cpu s)))) s
  | SetStateRunning => set_cpu_state running s
  | _ => s
  end.

(** One pass of the body of [while (!die)] in [cpu_daemon::cpu_thread]. *)
Definition cpu_thread_pass (d : cpu_daemon) : run cpu_daemon :=
  d ← drain_queue d;
  match get_cpu_state (m_scheduler d) with
  | running =>
      _ ← emit EvExecute;
      _ ← emit (EvSleep 250);
      mret (set_scheduler
              (set_cpu (execute_op_at_pc (m_cpu (m_scheduler d)))
                       (m_scheduler d)) d)
  | paused => mret d
  end.

(** Where the worker thread is. *)
Inductive thread_status :=
  | Looping (die : bool) (d : cpu_daemon)   (* still inside [while (!die)] *)
  | Returned (d : cpu_daemon)               (* [cpu_thread] returned *)
  | Terminated.                             (* left by an exception *)

Definition push_all (msgs : list cpu_message) (d : cpu_daemon) : cpu_daemon :=
  foldl (λ d msg, snd (send_message msg d)) d msgs.

(** [while (!die) { ... }], for at most [fuel] passes.  [arrivals k] are the
    messages the caller has pushed since the previous pass, when pass [k]
    starts. *)
Fixpoint cpu_thread_loop (fuel : nat) (arrivals : nat → list cpu_message)
    (die : bool) (d : cpu_daemon) : list event * thread_status :=
  if die then ([], Returned d)
  else
    match fuel with
    | O => ([], Looping die d)
    | S fuel' =>
        match cpu_thread_pass (push_all (arrivals O) d) with
        | (tr, Ok d') =>
            let '(tr', st) :=
              cpu_thread_loop fuel' (λ k, arrivals (S k)) die d' in
            (tr ++ tr', st)
        | (tr, out_of_range) => (tr, Terminated)
        end
    end.

(** [cpu_daemon::cpu_thread]: [bool die = false; while (!die) { ... }] *)
Definition cpu_thread (fuel : nat) (arrivals : nat → list cpu_message)
    (d : cpu_daemon) : list event * thread_status :=
  let die := false in
  cpu_thread_loop fuel arrivals die d.

(** [std::thread::join] returns once the thread function has returned. *)
Definition join (st : thread_status) : option unit :=
  match st with
  | Returned _ => Some tt
  | _ => None
  end.

(** [cpu_daemon::~cpu_daemon]: [m_cpu_thread.join();] *)
Definition cpu_daemon_delete (fuel : nat) (arrivals : nat → list cpu_message)
    (d : cpu_daemon) : option unit :=
  join (snd (cpu_thread fuel arrivals d)).

End Worker.

(** *** Properties of traces *)

(** Whether the mutex is held after the events of [tr], when [held] says
    whether it was before. *)
Definition lock_after (held : bool) (tr : list event) : bool :=
  foldl (λ held e,
           match e with
           | EvLock => true
           | EvUnlock => false
           | _ => held
           end) held tr.



Definition is_call (e : event) : bool :=
  match e with EvCall _ _ _ => true | _ => false end.


(** The calls of the handlers number [i] to [i + n - 1] of the type of
    [msg], on [msg]. *)
Definition call_events (msg : cpu_message) (i n : nat) : list event :=
  (λ k, EvCall (m_type msg) k msg) <$> seq i n.

(** The handlers of the type of a message, as the table has them. *)
Definition handlers_of (table : list (list cpu_message_handler))
    (msg : cpu_message) : list cpu_message_handler :=
  default [] (table !! type_index (m_type msg)).

(** The handler calls of a trace, in order. *)
Definition calls (tr : list event) : list event := filter is_call tr.

(** The sleeps of a trace, in milliseconds. *)
Definition sleeps (tr : list event) : list Z :=
  omap (λ e, match e with EvSleep ms => Some ms | _ => None end) tr.


(** The spec's delay between cycles, in milliseconds: "derive delay =
    1/rate", for a rate in cycles per second. *)
Definition derived_delay_ms (rate : Z) : Z := 1000 / rate.

(** The handlers registered for [type] by the registrations [regs], in the
    order of the registrations. *)
Definition registered (regs : list (cpu_message_type * cpu_message_handler))
    (type : cpu_message_type) : list cpu_message_handler :=
  omap (λ r, if decide (r.1 = type) then Some r.2 else None) regs.

(** [register_message_handler] for each of [regs], in order. *)
Fixpoint register_all (regs : list (cpu_message_type * cpu_message_handler))
    (d : cpu_daemon) : result cpu_daemon :=
  match regs with
  | [] => Ok d
  | (type, hdl) :: regs' =>
      match register_message_handler type hdl d with
      | Ok d' => register_all regs' d'
      | out_of_range => out_of_range
      end
  end.

(** A machine to construct daemons on: every cell zero. *)
Definition zeroed : cpu :=
  mk_cpu (replicate 0x1000 0) (replicate 16 0) 0 0 0 (replicate 16 0)
         standard (replicate (128 * 64) false) 0 0 (replicate 16 false).

(** The daemon the constructor makes on that machine, with the [reset] and
    [load_rom] of the spec. *)
Definition fresh_daemon : cpu_daemon :=
  mk_cpu_daemon (mk_scheduler 500 zeroed paused) []
    [[on_LoadROM Cpu.reset Cpu.load_rom]; [on_SetStateRunning];
     []; []; []; []].

(** The scheduler a run ends with, when it does not throw. *)
Definition scheduler_after (r : run cpu_daemon) : option scheduler :=
  match snd r with
  | Ok d => Some (m_scheduler d)
  | out_of_range => None
  end.

End Daemon.
Export Daemon.

(** *** Counting in traces *)

Fixpoint count_events (p : event → bool) (tr : list event) : nat :=
  match tr with
  | [] => 0
  | e :: tr' => ((if p e then 1 else 0) + count_events p tr')%nat
  end.

Definition is_execute (e : event) : bool :=
  match e with EvExecute => true | _ => false end.

Definition is_pop (e : event) : bool :=
  match e with EvPop => true | _ => false end.

Definition is_lock (e : event) : bool :=
  match e with EvLock => true | _ => false end.

Definition is_unlock (e : event) : bool :=
  match e with EvUnlock => true | _ => false end.

(** The trace of an inner loop that does not throw. *)
Definition passes_trace (table : list (list cpu_message_handler))
    (queue : list cpu_message) : list event :=
  queue ≫= (λ msg, [EvLock]
              ++ call_events msg 0 (length (handlers_of table msg))
              ++ [EvPop; EvUnlock]).

(** Whether a [SetStateRunning] message is among [queue]. *)
Definition asks_to_run (queue : list cpu_message) : bool :=
  existsb (λ msg, bool_decide (m_type msg = SetStateRunning)) queue.

(** The daemon with another machine. *)
Definition with_cpu (c : cpu) (d : cpu_daemon) : cpu_daemon :=
  set_scheduler (set_cpu c (m_scheduler d)) d.

(** ** The log pane ([gui::update_log_window]) *)

Module Gui.

(** The conversion of an [int] to [std::size_t], 64 bits wide, that the
    comparison and the conditional expression of [update_log_window] make
    of [height]. *)
Definition to_size_t (z : Z) : Z := z mod 2 ^ 64.

(** What [update_log_window] asks of curses, in order. *)
Inductive draw :=
  | Print (y x : Z) (text : string)   (* ::mvwprintw(win, y, x, text) *)
  | Border                            (* ::wborder(win, 0, ...) *)
  | Refresh.                          (* ::wrefresh(win) *)

(** The loop over the reverse iterator [it], from [m_gui_log.rbegin()] to
    [m_gui_log.rbegin() + draw_size]: [mvwprintw] of the line at [it] on
    row [y], column 1, then [y--].  [lines] are the lines the iterator
    passes. *)
Fixpoint print_lines (lines : list string) (y : Z) : list draw :=
  match lines with
  | [] => []
  | line :: lines' => Print y 1 line :: print_lines lines' (y - 1)
  end.

(** [gui::update_log_window].  [m_log_window] is [None] for the null
    pointer and otherwise the number of rows [getmaxyx] reports for the
    log window; [m_gui_log] has the oldest line first. *)
Definition update_log_window (m_log_window : option Z)
    (m_gui_log : list string) : list draw :=
  match m_log_window with
  | None => []
  | Some log_window_h =>
      let height := log_window_h - 1 in
      let y := height in
      let draw_size :=
        if bool_decide (to_size_t height ≤ Z.of_nat (length m_gui_log))
        then to_size_t height
        else Z.of_nat (length m_gui_log) in
      print_lines (take (Z.to_nat draw_size) (reverse m_gui_log)) y
        ++ [Border; Refresh]
  end.

(** The rows and the texts of the [Print]s of a list of operations. *)
Definition printed (ops : list draw) : list (Z * string) :=
  omap (λ op, match op with Print y _ text => Some (y, text) | _ => None end)
       ops.

End Gui.

(** * Properties *)

(** ** Dispatch *)

Section DispatchFacts.

Implicit Types (t : op_tree) (h q : op_handler) (hs : list op_handler).
Implicit Types (a b c d : option Z) (n : Z).

Lemma lookup_default_empty {A} (m : level (level A)) a b :
  default ∅ (m !! a) !! b = m !! a ≫= (.!! b).
Proof. destruct (m !! a); simpl; [done | apply lookup_empty]. Qed.

(** [add_op_handler] puts the handler at the end of the path of its
    encoding. *)
Lemma path4_add_eq h t : path4 (add_op_handler h t) (m_encoding h) = Some h.
Proof.
  unfold add_op_handler, path4, path3, path2, path1.
  destruct (m_encoding h) as [[[a b] c] d]; simpl.
  by rewrite !lookup_insert_eq; simpl; rewrite ?lookup_insert_eq; simpl;
    rewrite ?lookup_insert_eq; simpl; rewrite ?lookup_insert_eq.
Qed.

(** ... and leaves every path alone that leaves the encoding's. *)
Lemma path1_add_ne h t a :
  a ≠ (m_encoding h).1.1.1 → path1 (add_op_handler h t) a = path1 t a.
Proof.
  unfold add_op_handler, path1.
  destruct (m_encoding h) as [[[a' b'] c'] d']; simpl; intros Hne.
  by rewrite lookup_insert_ne.
Qed.

Lemma path2_add_ne h t a b :
  (a, b) ≠ (m_encoding h).1.1 → path2 (add_op_handler h t) a b = path2 t a b.
Proof.
  unfold add_op_handler, path2, path1.
  destruct (m_encoding h) as [[[a' b'] c'] d']; simpl; intros Hne.
  destruct (decide (a' = a)) as [->|Ha]; [|by rewrite lookup_insert_ne].
  rewrite lookup_insert_eq; simpl.
  rewrite lookup_insert_ne by congruence.
  apply lookup_default_empty.
Qed.

Lemma path3_add_ne h t a b c :
  (a, b, c) ≠ (m_encoding h).1 →
  path3 (add_op_handler h t) a b c = path3 t a b c.
Proof.
  intros Hne. unfold path3.
  destruct (decide ((a, b) = (m_encoding h).1.1)) as [Hab|Hab];
    [|by rewrite path2_add_ne].
  unfold add_op_handler, path2, path1.
  destruct (m_encoding h) as [[[a' b'] c'] d']; simpl in *.
  injection Hab as -> ->.
  rewrite !lookup_insert_eq; simpl. rewrite lookup_insert_eq; simpl.
  rewrite lookup_insert_ne by congruence.
  by rewrite !lookup_default_empty.
Qed.

Lemma path4_add_ne h t e :
  e ≠ m_encoding h → path4 (add_op_handler h t) e = path4 t e.
Proof.
  intros Hne. destruct e as [[[a b] c] d]. unfold path4.
  destruct (decide ((a, b, c) = (m_encoding h).1)) as [Habc|Habc];
    [|by rewrite path3_add_ne].
  unfold add_op_handler, path3, path2, path1.
  destruct (m_encoding h) as [[[a' b'] c'] d']; simpl in *.
  injection Habc as -> -> ->.
  rewrite !lookup_insert_eq; simpl. rewrite lookup_insert_eq; simpl.
  rewrite lookup_insert_eq; simpl.
  rewrite lookup_insert_ne by congruence.
  by rewrite !lookup_default_empty.
Qed.

(** The same for a list of registrations. *)
Lemma path1_adds_ne hs t a :
  Forall (λ q, a ≠ (m_encoding q).1.1.1) hs →
  path1 (add_op_handlers hs t) a = path1 t a.
Proof.
  intros H. revert t. induction H as [|q hs Hq _ IH]; intros t; [done|].
  unfold add_op_handlers in *. simpl. by rewrite IH, path1_add_ne.
Qed.

Lemma path2_adds_ne hs t a b :
  Forall (λ q, (a, b) ≠ (m_encoding q).1.1) hs →
  path2 (add_op_handlers hs t) a b = path2 t a b.
Proof.
  intros H. revert t. induction H as [|q hs Hq _ IH]; intros t; [done|].
  unfold add_op_handlers in *. simpl. by rewrite IH, path2_add_ne.
Qed.

Lemma path3_adds_ne hs t a b c :
  Forall (λ q, (a, b, c) ≠ (m_encoding q).1) hs →
  path3 (add_op_handlers hs t) a b c = path3 t a b c.
Proof.
  intros H. revert t. induction H as [|q hs Hq _ IH]; intros t; [done|].
  unfold add_op_handlers in *. simpl. by rewrite IH, path3_add_ne.
Qed.

Lemma path4_adds_ne hs t e :
  Forall (λ q, e ≠ m_encoding q) hs →
  path4 (add_op_handlers hs t) e = path4 t e.
Proof.
  intros H. revert t. induction H as [|q hs Hq _ IH]; intros t; [done|].
  unfold add_op_handlers in *. simpl. by rewrite IH, path4_add_ne.
Qed.

(** With one handler per encoding, each handler is found at the end of the
    path of its encoding. *)
Lemma path4_adds hs t h :
  NoDup (m_encoding <$> hs) → h ∈ hs →
  path4 (add_op_handlers hs t) (m_encoding h) = Some h.
Proof.
  intros Hnd Hin. revert t.
  induction hs as [|q hs IH]; intros t; [by apply elem_of_nil in Hin|].
  rewrite fmap_cons in Hnd. apply NoDup_cons in Hnd as [Hq Hnd].
  unfold add_op_handlers in *. simpl.
  apply elem_of_cons in Hin as [->|Hin]; [|by apply IH].
  fold (add_op_handlers hs (add_op_handler q t)).
  rewrite path4_adds_ne; [apply path4_add_eq|].
  apply Forall_forall. intros q' Hq' Heq. apply Hq.
  rewrite Heq. by apply list_elem_of_fmap_2.
Qed.

(** One level of the lookup: the key [k] of a pattern is the one the lookup
    takes when it is the nibble itself, or when it is the wildcard and the
    nibble is not a key at this level. *)
Lemma find_key_via {A} (m : level A) n (k : option Z) (v : A) :
  m !! k = Some v →
  k = Some n ∨ (k = None ∧ m !! Some n = None) →
  find_key m n = Some v.
Proof.
  unfold find_key. intros Hk [->|[-> Hn]]; [by rewrite Hk|by rewrite Hn].
Qed.

(** The lookup follows a path of the tree whose keys are, level by level,
    the ones the lookup takes. *)
Lemma lookup_follows_path t instruction a b c d h :
  path4 t (a, b, c, d) = Some h →
  a = Some (nibble 0 instruction)
    ∨ (a = None ∧ path1 t (Some (nibble 0 instruction)) = None) →
  b = Some (nibble 1 instruction)
    ∨ (b = None ∧ path2 t a (Some (nibble 1 instruction)) = None) →
  c = Some (nibble 2 instruction)
    ∨ (c = None ∧ path3 t a b (Some (nibble 2 instruction)) = None) →
  d = Some (nibble 3 instruction)
    ∨ (d = None ∧ path4 t (a, b, c, Some (nibble 3 instruction)) = None) →
  get_op_handler_for_instruction t instruction = Some h.
Proof.
  unfold path4, path3, path2, path1, get_op_handler_for_instruction.
  intros Hp Ha Hb Hc Hd.
  destruct (t !! a) as [l1|] eqn:E1; [|done]. simpl in *.
  destruct (l1 !! b) as [l2|] eqn:E2; [|done]. simpl in *.
  destruct (l2 !! c) as [l3|] eqn:E3; [|done]. simpl in *.
  rewrite (find_key_via t _ a l1 E1 Ha); simpl.
  rewrite (find_key_via l1 _ b l2 E2 Hb); simpl.
  rewrite (find_key_via l2 _ c l3 E3 Hc); simpl.
  by apply (find_key_via l3 _ d h).
Qed.

(** A level fails exactly when it has neither the exact key nor the
    wildcard, and the exact key wins when both are there. *)
Lemma find_key_None {A} (m : level A) n :
  find_key m n = None ↔ m !! Some n = None ∧ m !! None = None.
Proof.
  unfold find_key. destruct (m !! Some n) as [v|]; split.
  - discriminate.
  - by intros [? _].
  - done.
  - by intros [_ ?].
Qed.

Lemma find_key_exact {A} (m : level A) n (v : A) :
  m !! Some n = Some v → find_key m n = Some v.
Proof. unfold find_key. by intros ->. Qed.

(** A failure at a level is a failure of the lookup. *)
Lemma lookup_fails_at_level t instruction :
  get_op_handler_for_instruction t instruction = None ↔
    find_key t (nibble 0 instruction) = None
    ∨ (∃ l1, find_key t (nibble 0 instruction) = Some l1
        ∧ (find_key l1 (nibble 1 instruction) = None
           ∨ ∃ l2, find_key l1 (nibble 1 instruction) = Some l2
               ∧ (find_key l2 (nibble 2 instruction) = None
                  ∨ ∃ l3, find_key l2 (nibble 2 instruction) = Some l3
                      ∧ find_key l3 (nibble 3 instruction) = None))).
Proof.
  unfold get_op_handler_for_instruction.
  destruct (find_key t (nibble 0 instruction)) as [l1|] eqn:E1; simpl;
    [|split; [by left|done]].
  destruct (find_key l1 (nibble 1 instruction)) as [l2|] eqn:E2; simpl.
  2: { split; [|done]. intros _. right. exists l1. split; [done|by left]. }
  destruct (find_key l2 (nibble 2 instruction)) as [l3|] eqn:E3; simpl.
  2: { split; [|done]. intros _. right. exists l1. split; [done|]. right.
       exists l2. split; [done|by left]. }
  split.
  - intros H. right. exists l1. split; [done|]. right. exists l2.
    split; [done|]. right. by exists l3.
  - intros [?|(l1' & ? & [?|(l2' & ? & [?|(l3' & ? & ?)])])]; congruence.
Qed.

Lemma find_key_Some {A} (m : level A) n (v : A) :
  find_key m n = Some v →
  ∃ k, m !! k = Some v ∧ key_matches k n = true.
Proof.
  unfold find_key. destruct (m !! Some n) as [v'|] eqn:E.
  - intros Hv. exists (Some n). split; [congruence|].
    simpl. by apply bool_decide_eq_true_2.
  - intros Hv. by exists None.
Qed.

(** What is at the end of a path was registered with the path as its
    encoding. *)
Lemma path4_adds_Some hs t e h :
  path4 (add_op_handlers hs t) e = Some h →
  (h ∈ hs ∧ m_encoding h = e) ∨ path4 t e = Some h.
Proof.
  revert t. induction hs as [|q hs IH]; intros t; [by right|].
  unfold add_op_handlers in *. simpl. intros Hp.
  apply IH in Hp as [[Hin He]|Hp].
  - left. split; [by right|done].
  - destruct (decide (e = m_encoding q)) as [->|Hne].
    + rewrite path4_add_eq in Hp. injection Hp as ->. left. split; [by left|done].
    + rewrite path4_add_ne in Hp by done. by right.
Qed.

(** The handler the lookup returns was registered, and its pattern matches
    the instruction. *)
Lemma lookup_sound hs instruction h :
  get_op_handler_for_instruction (add_op_handlers hs ∅) instruction = Some h →
  h ∈ hs ∧ matches (m_encoding h) instruction = true.
Proof.
  unfold get_op_handler_for_instruction. intros H.
  destruct (find_key _ (nibble 0 _)) as [l1|] eqn:E1; [|done]. simpl in H.
  destruct (find_key l1 _) as [l2|] eqn:E2; [|done]. simpl in H.
  destruct (find_key l2 _) as [l3|] eqn:E3; [|done]. simpl in H.
  apply find_key_Some in E1 as (a & Ha & Ma), E2 as (b & Hb & Mb),
    E3 as (c & Hc & Mc), H as (d & Hd & Md).
  destruct (path4_adds_Some hs ∅ (a, b, c, d) h) as [[Hin He]|Hp].
  - unfold path4, path3, path2, path1. rewrite Ha. simpl. rewrite Hb. simpl.
    by rewrite Hc.
  - split; [done|]. rewrite He. unfold matches.
    by rewrite Ma, Mb, Mc, Md.
  - unfold path4, path3, path2, path1 in Hp. by rewrite lookup_empty in Hp.
Qed.

Lemma key_matches_spec k n :
  key_matches k n = true → k = Some n ∨ k = None.
Proof.
  destruct k as [v|]; simpl; [|by right].
  intros Hv%bool_decide_eq_true. left. by subst.
Qed.

Lemma fully_fixed_undiverted hs e instruction :
  fully_fixed e = true → undiverted hs e instruction = true.
Proof.
  destruct e as [[[a b] c] d]. unfold fully_fixed, undiverted.
  rewrite !andb_true_iff, !bool_decide_eq_true.
  intros [[[[? ->] [? ->]] [? ->]] [? ->]].
  apply forallb_forall. intros q _.
  destruct (m_encoding q) as [[[qa qb] qc] qd]. unfold diverts, is_wild.
  simpl. by rewrite !andb_false_r.
Qed.

Lemma undiverted_spec hs a b c d instruction q :
  undiverted hs (a, b, c, d) instruction = true → q ∈ hs →
  (a = None → Some (nibble 0 instruction) ≠ (m_encoding q).1.1.1)
  ∧ (b = None → (a, Some (nibble 1 instruction)) ≠ (m_encoding q).1.1)
  ∧ (c = None → (a, b, Some (nibble 2 instruction)) ≠ (m_encoding q).1)
  ∧ (d = None → (a, b, c, Some (nibble 3 instruction)) ≠ m_encoding q).
Proof.
  unfold undiverted. rewrite forallb_forall. intros H Hq.
  apply list_elem_of_In, H, negb_true_iff in Hq.
  destruct (m_encoding q) as [[[qa qb] qc] qd]. unfold diverts, is_wild in Hq.
  simpl. repeat split; intros -> Heq; simplify_eq;
    repeat case_bool_decide; simpl in Hq; congruence.
Qed.

(** What the lookup does give.  It takes, level by level, the exact key
    when the tree has it and the wildcard otherwise, and never comes back on
    a choice.  So, with one handler per encoding, an instruction that
    matches the pattern of a registered handler resolves to that handler
    when no registered pattern diverts it: none that agrees with the pattern
    on the levels before has the instruction's own nibble as key at a level
    where the pattern has the wildcard.  A fully fixed pattern is never
    diverted: its instruction always resolves to its handler, whatever
    wildcard patterns share its leading nibbles. *)
Theorem dispatch_resolves_undiverted hs h instruction :
  NoDup (m_encoding <$> hs) →
  h ∈ hs →
  matches (m_encoding h) instruction = true →
  fully_fixed (m_encoding h) = true
    ∨ undiverted hs (m_encoding h) instruction = true →
  get_op_handler_for_instruction (add_op_handlers hs ∅) instruction = Some h.
Proof.
  intros Hnd Hin Hm Hu.
  assert (undiverted hs (m_encoding h) instruction = true) as Hu'
    by (destruct Hu; [by apply fully_fixed_undiverted|done]).
  clear Hu. pose proof (path4_adds hs ∅ h Hnd Hin) as Hp.
  destruct (m_encoding h) as [[[a b] c] d] eqn:He.
  unfold matches in Hm. rewrite !andb_true_iff in Hm.
  destruct Hm as [[[Ha%key_matches_spec Hb%key_matches_spec]
    Hc%key_matches_spec] Hd%key_matches_spec].
  pose proof (undiverted_spec hs a b c d instruction) as Hq.
  apply (lookup_follows_path _ instruction a b c d h Hp).
  - destruct Ha as [? | ->]; [by left | right; split; [done |]].
    rewrite path1_adds_ne; [apply lookup_empty|].
    apply Forall_forall. intros q Hin'. by apply (Hq q Hu' Hin').
  - destruct Hb as [? | ->]; [by left | right; split; [done |]].
    rewrite path2_adds_ne; [unfold path2, path1; by rewrite lookup_empty|].
    apply Forall_forall. intros q Hin'. by apply (Hq q Hu' Hin').
  - destruct Hc as [? | ->]; [by left | right; split; [done |]].
    rewrite path3_adds_ne;
      [unfold path3, path2, path1; by rewrite lookup_empty|].
    apply Forall_forall. intros q Hin'. by apply (Hq q Hu' Hin').
  - destruct Hd as [? | ->]; [by left | right; split; [done |]].
    rewrite path4_adds_ne;
      [unfold path4, path3, path2, path1; by rewrite lookup_empty|].
    apply Forall_forall. intros q Hin'. by apply (Hq q Hu' Hin').
Qed.

End DispatchFacts.

Lemma op_handlers_NoDup : NoDup (m_encoding <$> op_handlers).
Proof. by apply (bool_decide_unpack _). Qed.

(** The largest instruction of the pattern [0nnn] resolves to [SYS]. *)
Lemma dispatch_resolves_undiverted_witness :
  get_op_handler_for_instruction (setup_op_handlers ∅) 0x0FFF = Some SYS.
Proof.
  apply (dispatch_resolves_undiverted op_handlers SYS 0x0FFF).
  - apply op_handlers_NoDup.
  - unfold op_handlers. set_solver.
  - reflexivity.
  - right. reflexivity.
Defined.


(** ** Loading and disassembling *)

(** How far the same defect goes: of the 4096 instructions of [0nnn], the
    256 that start with [00] find a handler only when they are [00E0] or
    [00EE]; all the others resolve to [SYS]. *)
Lemma dispatch_SYS_range :
  forallb (λ instruction,
             match get_op_handler_for_instruction (setup_op_handlers ∅)
                     instruction with
             | None =>
                 bool_decide (instruction < 0x100 ∧ instruction ≠ 0xE0
                              ∧ instruction ≠ 0xEE)
             | Some h =>
                 bool_decide
                   (m_encoding h
                    = if bool_decide (instruction = 0xE0) then m_encoding CLS
                      else if bool_decide (instruction = 0xEE)
                           then m_encoding RET
                           else m_encoding SYS)
                 && bool_decide (instruction = 0xE0 ∨ instruction = 0xEE
                                 ∨ 0x100 ≤ instruction)
             end)
          (seqZ 0 0x1000)
  = true.
Proof. by vm_compute. Qed.

Lemma load_rom_too_large (rom : list Z) (address : Z) (c : cpu) :
  0x1000 < Z.of_nat (length rom) + address →
  Cpu.load_rom rom address c = (false, c).
Proof.
  intros Hbig. unfold Cpu.load_rom, Cpu.memory_size.
  by rewrite bool_decide_eq_false_2 by lia.
Qed.

Lemma load_rom_nil (address : Z) (c : cpu) :
  address ≤ 0x1000 → Cpu.load_rom [] address c = (true, c).
Proof.
  intros Ha. unfold Cpu.load_rom, Cpu.memory_size.
  rewrite bool_decide_eq_true_2 by (simpl; lia). by destruct c.
Qed.

(** C2.  [load_rom] returns [true] exactly when the length of the ROM plus
    the load address is at most the 4096 bytes of memory; when it does not
    fit, the call returns [false] and the machine is the one it was given,
    in every component. *)
Theorem load_rom_succeeds_iff_fits (rom : list Z) (address : Z) (c : cpu) :
  (fst (Cpu.load_rom rom address c) = true
   ↔ Z.of_nat (length rom) + address ≤ 0x1000)
  ∧ (¬ Z.of_nat (length rom) + address ≤ 0x1000 →
     Cpu.load_rom rom address c = (false, c)).
Proof.
  unfold Cpu.load_rom, Cpu.memory_size.
  case_bool_decide; simpl; split; done.
Qed.

Lemma load_rom_succeeds_iff_fits_witness :
  fst (Cpu.load_rom [0x12; 0x00] 0x200 zeroed) = true
  ∧ Cpu.load_rom (replicate 3585 0) 0x200 zeroed = (false, zeroed).
Proof.
  split.
  - apply (load_rom_succeeds_iff_fits [0x12; 0x00] 0x200 zeroed). simpl. lia.
  - apply (load_rom_succeeds_iff_fits (replicate 3585 0) 0x200 zeroed).
    rewrite length_replicate. lia.
Defined.

(** A load that succeeds writes the ROM in place: the bytes of the ROM from
    the load address on, and the former contents everywhere else. *)
Lemma load_rom_ram (rom : list Z) (address : Z) (c : cpu) (j : nat) :
  0 ≤ address →
  Z.of_nat (length rom) + address ≤ Z.of_nat (length (m_ram c)) →
  fst (Cpu.load_rom rom address c) = true →
  m_ram (snd (Cpu.load_rom rom address c)) !! j =
    if bool_decide (Z.to_nat address ≤ j < Z.to_nat address + length rom)%nat
    then rom !! (j - Z.to_nat address)%nat
    else m_ram c !! j.
Proof.
  unfold Cpu.load_rom. intros Ha Hlen. case_bool_decide; [|done]. intros _.
  simpl. case_bool_decide.
  - apply list_lookup_inserts; lia.
  - destruct (decide (j < Z.to_nat address)%nat).
    + by apply list_lookup_inserts_lt.
    + apply list_lookup_inserts_ge. lia.
Qed.

(** C8.  Disassembling the instruction at an aligned address leaves the
    machine as it was: memory, registers, I, pc, sp, stack, timers, display
    and keys. *)
Theorem dasm_op_leaves_cpu (t : op_tree) (address : Z) (c : cpu) :
  Z.even address = true →
  snd (dasm_op t address c) = c.
Proof.
  intros _. unfold dasm_op.
  by destruct (get_op_handler_for_instruction t (Cpu.read_u16 c address)).
Qed.

Lemma dasm_op_leaves_cpu_witness :
  snd (dasm_op (setup_op_handlers ∅) 0x200
         (snd (Cpu.load_rom [0x12; 0x34] 0x200 zeroed)))
  = snd (Cpu.load_rom [0x12; 0x34] 0x200 zeroed).
Proof. by apply dasm_op_leaves_cpu. Defined.

(** ** The scheduler *)

Section DaemonFacts.

Implicit Types (table : list (list cpu_message_handler)).
Implicit Types (queue : list cpu_message) (msg : cpu_message).
Implicit Types (s : scheduler) (d : cpu_daemon) (tr : list event).

Lemma run_bind_ok {A B} (f : A → run B) tr (a : A) :
  (tr, Ok a) ≫= f = (tr ++ fst (f a), snd (f a)).
Proof. unfold mbind, run_bind. by destruct (f a). Qed.

Lemma run_bind_throw {A B} (f : A → run B) tr :
  (tr, out_of_range) ≫= f = (tr, out_of_range).
Proof. done. Qed.

(** The loop over the handlers calls each of them once, from the first to
    the last. *)
Lemma call_handlers_eq msg i (hs : list cpu_message_handler) s :
  call_handlers msg i hs s
  = (call_events msg i (length hs), Ok (foldl (λ s hdl, hdl msg s) s hs)).
Proof.
  revert i s. induction hs as [|hdl hs IH]; intros i s; [done|].
  simpl. by rewrite IH.
Qed.

Lemma handle_front_ok table msg s (hs : list cpu_message_handler) :
  table !! type_index (m_type msg) = Some hs →
  handle_front table msg s
  = ([EvLock] ++ call_events msg 0 (length hs) ++ [EvPop; EvUnlock],
     Ok (foldl (λ s hdl, hdl msg s) s hs)).
Proof.
  intros Hhs. unfold handle_front, at_, emit. rewrite Hhs.
  rewrite !run_bind_ok. simpl.
  case_bool_decide as Hlen.
  - by rewrite call_handlers_eq, run_bind_ok.
  - destruct hs; [done|simpl in Hlen; lia].
Qed.

Lemma handle_front_throw table msg s :
  table !! type_index (m_type msg) = None →
  handle_front table msg s = ([EvLock; EvThrow], out_of_range).
Proof. intros Hhs. unfold handle_front, at_, emit. by rewrite Hhs. Qed.

(** The inner loop, when every queued message has a type the table has a
    slot for: message after message from the front, all the handlers of its
    type. *)
Lemma drain_ok table queue s :
  Forall (λ msg, is_Some (table !! type_index (m_type msg))) queue →
  drain table queue s
  = (queue ≫= (λ msg, [EvLock]
                  ++ call_events msg 0 (length (handlers_of table msg))
                  ++ [EvPop; EvUnlock]),
     Ok (foldl (λ s msg, foldl (λ s hdl, hdl msg s) s (handlers_of table msg))
               s queue)).
Proof.
  intros H. revert s. induction H as [|msg queue [hs Hhs] _ IH]; intros s;
    [done|].
  simpl. rewrite (handle_front_ok _ _ _ hs Hhs), run_bind_ok, IH.
  unfold handlers_of. rewrite Hhs. simpl.
  by rewrite <- !app_assoc.
Qed.

#[local] Instance type_index_inj : Inj (=) (=) type_index.
Proof. intros [] [] H; by try discriminate. Qed.

Lemma registered_cons type' hdl regs type :
  registered ((type', hdl) :: regs) type
  = (if decide (type' = type) then [hdl] else []) ++ registered regs type.
Proof. unfold registered. simpl. by destruct (decide (type' = type)). Qed.

(** [push_back] puts a handler behind the ones its type already has, and
    the other types keep theirs. *)
Lemma register_all_lookup regs d d' type (hs0 : list cpu_message_handler) :
  register_all regs d = Ok d' →
  m_message_handlers d !! type_index type = Some hs0 →
  m_message_handlers d' !! type_index type
  = Some (hs0 ++ registered regs type).
Proof.
  revert d hs0. induction regs as [|[type' hdl] regs IH]; intros d hs0.
  - simpl. intros [= <-] ->. by rewrite app_nil_r.
  - rewrite registered_cons. cbn [register_all].
    unfold register_message_handler.
    destruct (m_message_handlers d !! type_index type') as [hs|] eqn:Hhs;
      [|done].
    intros Hregs Hhs0.
    destruct (decide (type' = type)) as [->|Hne].
    + rewrite app_assoc. apply (IH _ _ Hregs). simpl.
      rewrite list_lookup_insert_eq by (by eapply lookup_lt_Some).
      congruence.
    + simpl. apply (IH _ _ Hregs). simpl.
      rewrite list_lookup_insert_ne; [done|].
      intros Heq. by apply Hne, (inj type_index).
Qed.

Lemma fresh_table_lookup type :
  type ≠ _last →
  replicate (type_index _last) ([] : list cpu_message_handler)
    !! type_index type = Some [].
Proof. by destruct type. Qed.

(** C7.  Start from the table as the constructor sizes it and register the
    handlers of [regs], in that order.  Then, for a queue of messages of the
    command types, the worker's inner loop takes the messages from the front
    and, for each, calls all the handlers registered for its type, each
    once, in the order of their registration; the scheduler it ends with is
    the one these calls give, in that order.  A message whose type has no
    handler leaves the scheduler as it is. *)
Theorem handlers_run_in_registration_order
    (regs : list (cpu_message_type * cpu_message_handler)) d0 d queue s :
  m_message_handlers d0 = replicate (type_index _last) [] →
  register_all regs d0 = Ok d →
  Forall (λ msg, m_type msg ≠ _last) queue →
  drain (m_message_handlers d) queue s
  = (queue ≫= (λ msg, [EvLock]
                  ++ call_events msg 0 (length (registered regs (m_type msg)))
                  ++ [EvPop; EvUnlock]),
     Ok (foldl (λ s msg,
                  foldl (λ s hdl, hdl msg s) s (registered regs (m_type msg)))
               s queue))
  ∧ ∀ msg, m_type msg ≠ _last → registered regs (m_type msg) = [] →
      drain (m_message_handlers d) [msg] s = ([EvLock; EvPop; EvUnlock], Ok s).
Proof.
  intros Hfresh Hregs Hqueue.
  assert (∀ msg, m_type msg ≠ _last →
    m_message_handlers d !! type_index (m_type msg)
    = Some (registered regs (m_type msg))) as Htable.
  { intros msg Hmsg.
    apply (register_all_lookup regs d0 d (m_type msg) [] Hregs).
    rewrite Hfresh. by apply fresh_table_lookup. }
  assert (∀ msg, m_type msg ≠ _last →
    handlers_of (m_message_handlers d) msg = registered regs (m_type msg))
    as Hof.
  { intros msg Hmsg. unfold handlers_of. by rewrite Htable. }
  split.
  - rewrite drain_ok.
    + f_equal.
      * induction Hqueue as [|msg queue Hmsg _ IH]; [done|].
        rewrite !bind_cons. by rewrite IH, Hof.
      * f_equal. clear Htable. revert s.
        induction Hqueue as [|msg queue Hmsg _ IH]; intros s; [done|].
        simpl. by rewrite Hof, IH.
    + eapply Forall_impl; [exact Hqueue|].
      intros msg Hmsg. simpl. by rewrite Htable.
  - intros msg Hmsg Hnone. rewrite drain_ok.
    + simpl. by rewrite Hof, Hnone.
    + apply Forall_singleton. by rewrite Htable.
Qed.

End DaemonFacts.

Lemma handlers_run_in_registration_order_witness :
  let stop : cpu_message_handler := λ _ s, set_cpu_state paused s in
  let regs := [(SetStateRunning, on_SetStateRunning); (SetStateRunning, stop)] in
  let go := mk_cpu_message SetStateRunning [] 0 in
  let key := mk_cpu_message KeyDown [7] 0 in
  drain [[]; [on_SetStateRunning; stop]; []; []; []; []] [go; key]
        (mk_scheduler 500 zeroed paused)
  = ([EvLock; EvCall SetStateRunning 0 go; EvCall SetStateRunning 1 go;
      EvPop; EvUnlock; EvLock; EvPop; EvUnlock],
     Ok (mk_scheduler 500 zeroed paused)).
Proof.
  intros stop regs go key.
  apply (handlers_run_in_registration_order regs
           (mk_cpu_daemon (mk_scheduler 500 zeroed paused) []
              (replicate (type_index _last) []))
           (mk_cpu_daemon (mk_scheduler 500 zeroed paused) []
              [[]; [on_SetStateRunning; stop]; []; []; []; []])
           [go; key] (mk_scheduler 500 zeroed paused)).
  - reflexivity.
  - reflexivity.
  - repeat constructor; discriminate.
Defined.

Section SchedulerFacts.

Context (reset : cpu → cpu) (load_rom : list Z → Z → cpu → bool * cpu).
Context (execute_op_at_pc : cpu → cpu).

Implicit Types (table : list (list cpu_message_handler)).
Implicit Types (queue : list cpu_message) (msg : cpu_message).
Implicit Types (s : scheduler) (d : cpu_daemon) (tr : list event).

(** The constructor never throws, and this is the daemon it makes. *)
Lemma cpu_daemon_new_eq (c : cpu) :
  cpu_daemon_new reset load_rom c
  = Ok (mk_cpu_daemon (mk_scheduler 500 c paused) []
          [[on_LoadROM reset load_rom]; [on_SetStateRunning]; []; []; []; []]).
Proof. reflexivity. Qed.

Lemma as_constructed_table d :
  as_constructed reset load_rom d →
  m_message_handlers d
  = [[on_LoadROM reset load_rom]; [on_SetStateRunning]; []; []; []; []].
Proof.
  intros (c & d0 & Hnew & ->). rewrite cpu_daemon_new_eq in Hnew.
  by injection Hnew as <-.
Qed.

Lemma on_LoadROM_eq msg s :
  on_LoadROM reset load_rom msg s
  = set_cpu (snd (load_rom (m_data msg) 0x200 (reset (m_cpu s)))) s.
Proof. unfold on_LoadROM. by destruct (load_rom _ _ _). Qed.

(** A message sent to a daemon with the constructor's handlers and an empty
    queue, and then taken by the worker. *)
Lemma deliver_constructed d msg :
  as_constructed reset load_rom d →
  m_unhandled_messages d = [] →
  m_type msg ≠ _last →
  deliver msg d
  = ([EvLock]
       ++ call_events msg 0
            (match m_type msg with
             | LoadROM | SetStateRunning => 1
             | _ => 0
             end)
       ++ [EvPop; EvUnlock],
     Ok (set_scheduler (effect reset load_rom msg (m_scheduler d)) d)).
Proof.
  intros Htable%as_constructed_table Hq Hmsg.
  unfold deliver, drain_queue, send_message, effect. simpl.
  rewrite Hq, Htable. simpl.
  destruct d as [s q table]. simpl in *. subst q table.
  destruct msg as [[] data address]; simpl in *; try done;
    unfold handle_front, at_, set_scheduler; simpl;
    by rewrite ?on_LoadROM_eq.
Qed.

(** C5, as amended.  A [LoadROM] message resets the machine and then loads
    the bytes it carries at the address 0x200, which is a literal of the
    handler: the address that comes with the message is not read. *)
Theorem LoadROM_resets_then_loads_at_0x200 d msg :
  as_constructed reset load_rom d →
  m_unhandled_messages d = [] →
  m_type msg = LoadROM →
  snd (deliver msg d)
  = Ok (set_scheduler
          (set_cpu (snd (load_rom (m_data msg) 0x200
                           (reset (m_cpu (m_scheduler d)))))
                   (m_scheduler d)) d).
Proof.
  intros Hd Hq Hmsg.
  rewrite (deliver_constructed d msg Hd Hq) by (by rewrite Hmsg).
  unfold effect. by rewrite Hmsg.
Qed.

(** C6, as amended.  Of the six kinds of command the constructor registers
    a handler for two: a [LoadROM] message resets the machine and loads its
    bytes at 0x200, a [SetStateRunning] message sets the state to running.
    A message of one of the other four kinds is taken from the queue and
    leaves the scheduler as it was. *)
Theorem two_commands_are_handled d msg :
  as_constructed reset load_rom d →
  m_unhandled_messages d = [] →
  m_type msg ≠ _last →
  snd (deliver msg d)
  = Ok (set_scheduler
          (match m_type msg with
           | LoadROM =>
               set_cpu (snd (load_rom (m_data msg) 0x200
                               (reset (m_cpu (m_scheduler d)))))
                       (m_scheduler d)
           | SetStateRunning => set_cpu_state running (m_scheduler d)
           | SetStatePaused | KeyDown | KeyUp | SetClockSpeed | _last =>
               m_scheduler d
           end) d).
Proof.
  intros Hd Hq Hmsg. rewrite (deliver_constructed d msg Hd Hq Hmsg).
  unfold effect. by destruct (m_type msg).
Qed.

(** C3, the code at the claim's input.  A pass of the worker in the running
    state makes one call of [execute_op_at_pc] and then sleeps for 250
    milliseconds, whatever [m_clock_speed] holds; the delay derived from the
    default rate of 500 cycles a second is 2 milliseconds. *)
Theorem cycle_delay_ignores_clock_speed (speed : Z) (c : cpu) table :
  cpu_thread_pass execute_op_at_pc
    (mk_cpu_daemon (mk_scheduler speed c running) [] table)
  = ([EvExecute; EvSleep 250],
     Ok (mk_cpu_daemon (mk_scheduler speed (execute_op_at_pc c) running)
           [] table))
  ∧ sleeps (fst (cpu_thread_pass execute_op_at_pc
                   (mk_cpu_daemon (mk_scheduler 500 c running) [] table)))
    = [250]
  ∧ derived_delay_ms 500 = 2.
Proof. done. Qed.

(** The worker loop with the flag [false] is still in the loop with the flag
    [false] when the fuel is spent, unless an exception ended it before. *)
Lemma cpu_thread_loop_false fuel (arrivals : nat → list cpu_message) d :
  (∃ tr d', cpu_thread_loop execute_op_at_pc fuel arrivals false d
            = (tr, Looping false d'))
  ∨ (∃ tr, cpu_thread_loop execute_op_at_pc fuel arrivals false d
           = (tr, Terminated)).
Proof.
  revert arrivals d. induction fuel as [|fuel IH]; intros arrivals d.
  - left. by exists [], d.
  - simpl.
    destruct (cpu_thread_pass execute_op_at_pc (push_all (arrivals 0%nat) d))
      as [tr [d'|]]; [|right; by exists tr].
    destruct (IH (λ k, arrivals (S k)) d') as [(tr' & d'' & ->)|(tr' & ->)].
    + left. by exists (tr ++ tr'), d''.
    + right. by exists (tr ++ tr').
Qed.

(** C9.  However many passes the worker is given and whatever messages
    arrive, [cpu_thread] has not returned: it is still in its loop with
    [die] false, or an exception has ended the thread.  So the [join] of
    the destructor never completes. *)
Theorem cpu_thread_never_returns fuel (arrivals : nat → list cpu_message) d :
  (∀ d', snd (cpu_thread execute_op_at_pc fuel arrivals d) ≠ Returned d')
  ∧ (∀ d', snd (cpu_thread execute_op_at_pc fuel arrivals d)
           ≠ Looping true d')
  ∧ cpu_daemon_delete execute_op_at_pc fuel arrivals d = None.
Proof.
  unfold cpu_daemon_delete, cpu_thread.
  by destruct (cpu_thread_loop_false fuel arrivals d)
    as [(tr & d'' & ->)|(tr & ->)].
Qed.

(** A pass of the worker does not throw when the table has a slot for the
    type of every queued message; it leaves the table as it is and the queue
    empty. *)
Lemma cpu_thread_pass_ok d :
  Forall (λ msg, is_Some (m_message_handlers d !! type_index (m_type msg)))
         (m_unhandled_messages d) →
  ∃ tr d', cpu_thread_pass execute_op_at_pc d = (tr, Ok d')
           ∧ m_message_handlers d' = m_message_handlers d
           ∧ m_unhandled_messages d' = [].
Proof.
  intros Hq. unfold cpu_thread_pass, drain_queue.
  rewrite (drain_ok _ _ _ Hq), !run_bind_ok. simpl.
  destruct (get_cpu_state _); simpl; eauto.
Qed.

Lemma push_all_eq (msgs : list cpu_message) d :
  push_all msgs d
  = mk_cpu_daemon (m_scheduler d) (m_unhandled_messages d ++ msgs)
                  (m_message_handlers d).
Proof.
  revert d. induction msgs as [|msg msgs IH]; intros d.
  - simpl. rewrite app_nil_r. by destruct d.
  - simpl. rewrite IH. simpl. by rewrite <- app_assoc.
Qed.

(** With messages of the command types only, no exception ends the thread:
    it is in its loop for ever. *)
Lemma cpu_thread_loops fuel (arrivals : nat → list cpu_message) d :
  as_constructed reset load_rom d →
  Forall (λ msg, m_type msg ≠ _last) (m_unhandled_messages d) →
  (∀ k, Forall (λ msg, m_type msg ≠ _last) (arrivals k)) →
  ∃ tr d', cpu_thread execute_op_at_pc fuel arrivals d
           = (tr, Looping false d').
Proof.
  unfold cpu_thread. intros Hd%as_constructed_table.
  revert arrivals d Hd. induction fuel as [|fuel IH];
    intros arrivals d Hd Hq Harr; [by exists [], d|].
  simpl. destruct (cpu_thread_pass_ok (push_all (arrivals 0%nat) d))
    as (tr & d' & -> & Htable & Hq').
  { rewrite push_all_eq. simpl. rewrite Hd.
    eapply Forall_impl; [apply Forall_app; split; [exact Hq|apply Harr]|].
    intros msg Hmsg. simpl in *. by destruct (m_type msg); simpl; eauto. }
  rewrite push_all_eq in Htable. simpl in Htable.
  destruct (IH (λ k, arrivals (S k)) d') as (tr' & d'' & ->).
  - by rewrite Htable.
  - by rewrite Hq'.
  - intros k. apply Harr.
  - by exists (tr ++ tr'), d''.
Qed.

End SchedulerFacts.

(** ** The lock *)

Section LockFacts.

Implicit Types (table : list (list cpu_message_handler)).
Implicit Types (queue : list cpu_message) (msg : cpu_message).
Implicit Types (s : scheduler) (tr : list event).


Lemma lock_after_call_events msg i n held :
  lock_after held (call_events msg i n) = held.
Proof.
  unfold call_events. revert i. induction n as [|n IH]; intros i; [done|].
  simpl. apply IH.
Qed.





End LockFacts.

(** The daemon of the examples below is the one the constructor makes. *)
Lemma cpu_daemon_new_fresh :
  cpu_daemon_new Cpu.reset Cpu.load_rom zeroed = Ok fresh_daemon.
Proof. reflexivity. Qed.

Lemma fresh_daemon_as_constructed :
  as_constructed Cpu.reset Cpu.load_rom fresh_daemon.
Proof. exists zeroed, fresh_daemon. split; reflexivity. Qed.


(** ** The commands, on the daemon the constructor makes *)

Lemma LoadROM_resets_then_loads_at_0x200_witness :
  snd (deliver (mk_cpu_message LoadROM [0x12; 0x34] 0x200) fresh_daemon)
  = Ok (set_scheduler
          (set_cpu (snd (Cpu.load_rom [0x12; 0x34] 0x200 (Cpu.reset zeroed)))
                   (mk_scheduler 500 zeroed paused)) fresh_daemon).
Proof.
  apply (LoadROM_resets_then_loads_at_0x200 Cpu.reset Cpu.load_rom
           fresh_daemon (mk_cpu_message LoadROM [0x12; 0x34] 0x200)).
  - apply fresh_daemon_as_constructed.
  - reflexivity.
  - reflexivity.
Defined.

(** C5, as stated, fails.  A [LoadROM] message that carries one byte and the
    load address 0x300 puts the byte at 0x200 and leaves 0x300 at zero;
    loading at the address of the message would put it at 0x300. *)
Lemma LoadROM_ignores_address :
  let msg := mk_cpu_message LoadROM [0xAB] 0x300 in
  let loaded := (λ s, m_cpu s) <$> scheduler_after (deliver msg fresh_daemon) in
  let claimed :=
    snd (Cpu.load_rom (m_data msg) (m_address msg) (Cpu.reset zeroed)) in
  (λ c, m_ram c !! 0x200%nat) <$> loaded = Some (Some 0xAB)
  ∧ (λ c, m_ram c !! 0x300%nat) <$> loaded = Some (Some 0)
  ∧ m_ram claimed !! 0x300%nat = Some 0xAB
  ∧ loaded ≠ Some claimed.
Proof.
  intros msg loaded claimed.
  assert ((λ c, m_ram c !! 0x300%nat) <$> loaded = Some (Some 0)) as H1
    by (by vm_compute).
  assert (m_ram claimed !! 0x300%nat = Some 0xAB) as H2 by (by vm_compute).
  split; [by vm_compute|]. split; [done|]. split; [done|].
  intros Heq. rewrite Heq in H1. simpl in H1. congruence.
Qed.

Lemma two_commands_are_handled_witness :
  snd (deliver (mk_cpu_message SetStateRunning [] 0) fresh_daemon)
  = Ok (set_scheduler (mk_scheduler 500 zeroed running) fresh_daemon)
  ∧ snd (deliver (mk_cpu_message KeyDown [0x7] 0) fresh_daemon)
    = Ok fresh_daemon.
Proof.
  split.
  - apply (two_commands_are_handled Cpu.reset Cpu.load_rom fresh_daemon
             (mk_cpu_message SetStateRunning [] 0)).
    + apply fresh_daemon_as_constructed.
    + reflexivity.
    + discriminate.
  - apply (two_commands_are_handled Cpu.reset Cpu.load_rom fresh_daemon
             (mk_cpu_message KeyDown [0x7] 0)).
    + apply fresh_daemon_as_constructed.
    + reflexivity.
    + discriminate.
Defined.

(** C6, as stated, fails.  On a running daemon a [SetStatePaused] message
    leaves the state running, a [SetClockSpeed] message leaves the clock
    speed at 500, and the key messages leave the key flags as they were. *)
Lemma four_commands_are_dropped :
  let d := set_scheduler (mk_scheduler 500 zeroed running) fresh_daemon in
  m_cpu_state
    <$> scheduler_after (deliver (mk_cpu_message SetStatePaused [] 0) d)
  = Some running
  ∧ m_clock_speed
      <$> scheduler_after (deliver (mk_cpu_message SetClockSpeed [0x64] 0) d)
    = Some 500
  ∧ (λ s, m_keys (m_cpu s))
      <$> scheduler_after (deliver (mk_cpu_message KeyDown [0x7] 0) d)
    = Some (replicate 16 false)
  ∧ scheduler_after (deliver (mk_cpu_message KeyUp [0x7] 0) d)
    = Some (m_scheduler d).
Proof. by vm_compute. Qed.

(** C10.  When the bytes of a [LoadROM] message do not fit from 0x200 on,
    [load_rom] returns [false]; the handler drops that value, and the
    message leaves the daemon with the machine reset and nothing else
    changed.  This is the very daemon that a [LoadROM] message with no bytes
    at all, whose load succeeds, leaves: nothing in the daemon tells the
    failure. *)
Theorem LoadROM_failure_is_silent (d : cpu_daemon) (msg : cpu_message) :
  as_constructed Cpu.reset Cpu.load_rom d →
  m_unhandled_messages d = [] →
  m_type msg = LoadROM →
  0x1000 < Z.of_nat (length (m_data msg)) + 0x200 →
  fst (Cpu.load_rom (m_data msg) 0x200 (Cpu.reset (m_cpu (m_scheduler d))))
  = false
  ∧ snd (deliver msg d)
    = Ok (set_scheduler
            (set_cpu (Cpu.reset (m_cpu (m_scheduler d))) (m_scheduler d)) d)
  ∧ snd (deliver msg d)
    = snd (deliver (mk_cpu_message LoadROM [] (m_address msg)) d)
  ∧ fst (Cpu.load_rom [] 0x200 (Cpu.reset (m_cpu (m_scheduler d)))) = true.
Proof.
  intros Hd Hq Hmsg Hbig.
  rewrite !(deliver_constructed Cpu.reset Cpu.load_rom d _ Hd Hq)
    by (simpl; by rewrite ?Hmsg).
  unfold effect. rewrite Hmsg. cbn [m_type m_data].
  rewrite (load_rom_too_large _ _ _ Hbig), load_rom_nil by lia.
  by repeat split.
Qed.

Lemma LoadROM_failure_is_silent_witness :
  snd (deliver (mk_cpu_message LoadROM (replicate 3585 0xFF) 0x200)
               fresh_daemon)
  = Ok (set_scheduler
          (set_cpu (Cpu.reset zeroed) (mk_scheduler 500 zeroed paused))
          fresh_daemon).
Proof.
  apply (LoadROM_failure_is_silent fresh_daemon
           (mk_cpu_message LoadROM (replicate 3585 0xFF) 0x200)).
  - apply fresh_daemon_as_constructed.
  - reflexivity.
  - reflexivity.
  - cbn [m_data]. rewrite length_replicate. lia.
Defined.

(** * Further properties of the scheduler *)

Section QueueFacts.

Implicit Types (table : list (list cpu_message_handler)).
Implicit Types (queue msgs : list cpu_message) (msg : cpu_message).
Implicit Types (s : scheduler) (d : cpu_daemon) (tr : list event).

Lemma count_events_app (p : event → bool) tr1 tr2 :
  count_events p (tr1 ++ tr2)
  = (count_events p tr1 + count_events p tr2)%nat.
Proof. induction tr1 as [|e tr1 IH]; simpl; [done|]. rewrite IH. lia. Qed.

Lemma count_call_events (p : event → bool) msg i n :
  (∀ type k m, p (EvCall type k m) = false) →
  count_events p (call_events msg i n) = 0%nat.
Proof.
  intros Hp. unfold call_events. revert i.
  induction n as [|n IH]; intros i; [done|]. simpl. by rewrite Hp, IH.
Qed.

Lemma count_passes_trace (p : event → bool) table queue :
  (∀ type k m, p (EvCall type k m) = false) →
  count_events p (passes_trace table queue)
  = (length queue * ((if p EvLock then 1 else 0) + (if p EvPop then 1 else 0)
                     + (if p EvUnlock then 1 else 0)))%nat.
Proof.
  intros Hp. unfold passes_trace. induction queue as [|msg queue IH]; [done|].
  rewrite bind_cons, !count_events_app, IH, count_call_events by done.
  simpl. lia.
Qed.

Lemma lock_after_app held tr1 tr2 :
  lock_after held (tr1 ++ tr2) = lock_after (lock_after held tr1) tr2.
Proof. unfold lock_after. apply foldl_app. Qed.

Lemma lock_after_passes_trace table queue :
  lock_after false (passes_trace table queue) = false.
Proof.
  unfold passes_trace. induction queue as [|msg queue IH]; [done|].
  rewrite bind_cons, <- !app_assoc, !lock_after_app.
  by rewrite lock_after_call_events.
Qed.

(** The messages sent to a daemon whose queue is empty are handled in the
    order in which they were sent: [send_message] pushes at the back, the
    worker takes from the front.  The scheduler the worker ends with is the
    one the handlers give, message after message in that order, and the
    queue is empty again. *)
Theorem sent_messages_are_handled_in_order msgs d :
  m_unhandled_messages d = [] →
  Forall (λ msg, is_Some (m_message_handlers d !! type_index (m_type msg)))
         msgs →
  drain_queue (push_all msgs d)
  = (msgs ≫= (λ msg, [EvLock]
                ++ call_events msg 0
                     (length (handlers_of (m_message_handlers d) msg))
                ++ [EvPop; EvUnlock]),
     Ok (mk_cpu_daemon
           (foldl (λ s msg, foldl (λ s hdl, hdl msg s) s
                              (handlers_of (m_message_handlers d) msg))
                  (m_scheduler d) msgs)
           [] (m_message_handlers d))).
Proof.
  intros Hq Hmsgs. unfold drain_queue. rewrite push_all_eq, Hq. simpl.
  rewrite (drain_ok _ _ _ Hmsgs), run_bind_ok. simpl. by rewrite app_nil_r.
Qed.

(** The inner loop throws exactly when the type of some queued message has
    no slot in the table of handlers. *)
Lemma drain_throws_iff table queue s :
  snd (drain table queue s) = out_of_range
  ↔ Exists (λ msg, table !! type_index (m_type msg) = None) queue.
Proof.
  revert s. induction queue as [|msg queue IH]; intros s.
  - simpl. split; [done|]. by intros ?%Exists_nil.
  - rewrite Exists_cons. simpl.
    destruct (table !! type_index (m_type msg)) as [hs|] eqn:Hhs.
    + rewrite (handle_front_ok _ _ _ hs Hhs), run_bind_ok. simpl.
      rewrite IH. split; [by right|]. by intros [?|?].
    + rewrite (handle_front_throw _ _ _ Hhs). simpl. split; [by left|done].
Qed.

Lemma drain_at_unknown_type table queue msg queue' s :
  Forall (λ msg, is_Some (table !! type_index (m_type msg))) queue →
  table !! type_index (m_type msg) = None →
  drain table (queue ++ msg :: queue') s
  = (passes_trace table queue ++ [EvLock; EvThrow], out_of_range).
Proof.
  intros Hq Hmsg. unfold passes_trace. revert s.
  induction Hq as [|m queue [hs Hhs] _ IH]; intros s.
  - simpl. by rewrite (handle_front_throw _ _ _ Hmsg).
  - rewrite <- app_comm_cons. cbn [drain].
    rewrite (handle_front_ok _ _ _ hs Hhs), !run_bind_ok, IH, bind_cons.
    assert (handlers_of table m = hs) as -> by (unfold handlers_of; by rewrite Hhs).
    simpl. by rewrite <- !app_assoc.
Qed.

(** The message at which the inner loop throws: the messages before it have
    been handled and popped, and neither it nor the messages behind it are
    handled or popped. *)
Theorem drain_stops_at_unknown_type table queue msg queue' s :
  Forall (λ msg, is_Some (table !! type_index (m_type msg))) queue →
  table !! type_index (m_type msg) = None →
  drain table (queue ++ msg :: queue') s
  = (fst (drain table queue s) ++ [EvLock; EvThrow], out_of_range)
  ∧ count_events is_pop (fst (drain table (queue ++ msg :: queue') s))
    = length queue
  ∧ calls (fst (drain table (queue ++ msg :: queue') s))
    = calls (fst (drain table queue s)).
Proof.
  intros Hq Hmsg. rewrite (drain_at_unknown_type _ _ _ _ _ Hq Hmsg).
  rewrite (drain_ok _ _ _ Hq). cbn [fst].
  fold (passes_trace table queue). split; [done|]. split.
  - rewrite count_events_app, count_passes_trace by done. simpl. lia.
  - unfold calls. rewrite filter_app. simpl.
    rewrite !filter_cons_False by (simpl; tauto). apply app_nil_r.
Qed.

(** When no message makes the inner loop throw, every queued message is
    popped once, with one lock and one unlock around it, and the lock is
    free at the end. *)
Theorem each_message_is_popped_once table queue s :
  Forall (λ msg, is_Some (table !! type_index (m_type msg))) queue →
  let tr := fst (drain table queue s) in
  count_events is_pop tr = length queue
  ∧ count_events is_lock tr = length queue
  ∧ count_events is_unlock tr = length queue
  ∧ lock_after false tr = false.
Proof.
  intros Hq. cbn zeta. rewrite (drain_ok _ _ _ Hq). cbn [fst].
  fold (passes_trace table queue).
  rewrite !count_passes_trace, lock_after_passes_trace by done.
  simpl. repeat split; lia.
Qed.

End QueueFacts.

Section RegistrationFacts.

Implicit Types (d : cpu_daemon).
Implicit Types (regs : list (cpu_message_type * cpu_message_handler)).

Lemma register_message_handler_Ok type hdl d d' :
  register_message_handler type hdl d = Ok d' →
  m_scheduler d' = m_scheduler d
  ∧ m_unhandled_messages d' = m_unhandled_messages d
  ∧ length (m_message_handlers d') = length (m_message_handlers d).
Proof.
  unfold register_message_handler.
  destruct (m_message_handlers d !! type_index type); [|done].
  intros [= <-]. simpl. by rewrite length_insert.
Qed.

Lemma register_message_handler_throws type hdl d :
  register_message_handler type hdl d = out_of_range
  ↔ (length (m_message_handlers d) ≤ type_index type)%nat.
Proof.
  unfold register_message_handler.
  destruct (m_message_handlers d !! type_index type) eqn:E.
  - apply lookup_lt_Some in E. split; [done|lia].
  - apply lookup_ge_None in E. by split.
Qed.

(** On a table with the [_last] slots the constructor gives it, a sequence
    of registrations goes through exactly when none of them is for the end
    marker [_last], for which [at] throws.  When it goes through, the table
    still has [_last] slots, and the scheduler and the queue are untouched. *)
Theorem registrations_succeed_iff regs d :
  length (m_message_handlers d) = type_index _last →
  (Forall (λ r, r.1 ≠ _last) regs ↔ ∃ d', register_all regs d = Ok d')
  ∧ ∀ d', register_all regs d = Ok d' →
      length (m_message_handlers d') = type_index _last
      ∧ m_scheduler d' = m_scheduler d
      ∧ m_unhandled_messages d' = m_unhandled_messages d.
Proof.
  revert d. induction regs as [|[type hdl] regs IH]; intros d Hlen.
  - simpl. split; [split; eauto|]. by intros d' [= <-].
  - cbn [register_all].
    destruct (register_message_handler type hdl d) as [d1|] eqn:E1.
    + destruct (register_message_handler_Ok _ _ _ _ E1) as (Hs & Hq & Hl).
      destruct (IH d1) as [Hiff Hkeep]; [congruence|].
      split.
      * rewrite Forall_cons, Hiff. split; [by intros [_ ?]|].
        intros H. split; [|done]. simpl. intros ->.
        assert (register_message_handler _last hdl d ≠ out_of_range) as Hno
          by congruence.
        apply Hno, register_message_handler_throws. lia.
      * intros d' Hd'. destruct (Hkeep d' Hd') as (? & ? & ?).
        repeat split; congruence.
    + split; [|done]. split; [|by intros [? ?]].
      intros [Hne _]%Forall_cons. simpl in Hne.
      apply register_message_handler_throws in E1. rewrite Hlen in E1.
      destruct type; simpl in E1; try lia. done.
Qed.

Lemma registrations_succeed_iff_witness :
  ∃ d', register_all [(KeyDown, on_SetStateRunning);
                      (KeyDown, on_SetStateRunning)] fresh_daemon = Ok d'.
Proof.
  apply (registrations_succeed_iff
           [(KeyDown, on_SetStateRunning); (KeyDown, on_SetStateRunning)]
           fresh_daemon).
  - reflexivity.
  - repeat constructor; discriminate.
Defined.

End RegistrationFacts.

(** ** The life of the worker, with the handlers of the constructor *)

Section WorkerLife.

Context (reset : cpu → cpu) (load_rom : list Z → Z → cpu → bool * cpu).
Context (execute_op_at_pc : cpu → cpu).

Implicit Types (queue msgs : list cpu_message) (msg : cpu_message).
Implicit Types (s : scheduler) (d : cpu_daemon) (tr : list event).

Local Abbreviation fx := (effect reset load_rom).
Local Abbreviation pass := (cpu_thread_pass execute_op_at_pc).
Local Abbreviation thread := (cpu_thread execute_op_at_pc).
Local Abbreviation constructed := (as_constructed reset load_rom).
Local Abbreviation command queue := (Forall (λ msg, m_type msg ≠ _last) queue).

Lemma constructed_slots d queue :
  constructed d → command queue →
  Forall (λ msg, is_Some (m_message_handlers d !! type_index (m_type msg)))
         queue.
Proof.
  intros Hd%as_constructed_table Hq. rewrite Hd.
  eapply Forall_impl; [exact Hq|]. intros msg Hmsg. simpl in *.
  by destruct (m_type msg); simpl; eauto.
Qed.

Lemma constructed_handlers d msg s :
  constructed d → m_type msg ≠ _last →
  foldl (λ s hdl, hdl msg s) s (handlers_of (m_message_handlers d) msg)
  = fx msg s.
Proof.
  intros Hd%as_constructed_table Hmsg. unfold handlers_of, effect.
  rewrite Hd. destruct (m_type msg); simpl; try done.
  apply on_LoadROM_eq.
Qed.

(** The inner loop of a daemon with the constructor's handlers. *)
Lemma drain_queue_constructed d :
  constructed d → command (m_unhandled_messages d) →
  drain_queue d
  = (passes_trace (m_message_handlers d) (m_unhandled_messages d),
     Ok (mk_cpu_daemon
           (foldl (λ s msg, fx msg s) (m_scheduler d) (m_unhandled_messages d))
           [] (m_message_handlers d))).
Proof.
  intros Hd Hq. unfold drain_queue.
  rewrite (drain_ok _ _ _ (constructed_slots d _ Hd Hq)), run_bind_ok.
  simpl. rewrite app_nil_r. unfold passes_trace. do 3 f_equal.
  generalize (m_scheduler d).
  induction Hq as [|msg queue Hmsg _ IH]; intros s; [done|].
  simpl. by rewrite (constructed_handlers d msg s Hd Hmsg), IH.
Qed.

Lemma effect_clock_speed msg s : m_clock_speed (fx msg s) = m_clock_speed s.
Proof. unfold effect. by destruct (m_type msg). Qed.

Lemma effect_cpu_state msg s :
  m_cpu_state (fx msg s)
  = if bool_decide (m_type msg = SetStateRunning) then running
    else m_cpu_state s.
Proof. unfold effect. by destruct (m_type msg). Qed.

Lemma effects_clock_speed queue s :
  m_clock_speed (foldl (λ s msg, fx msg s) s queue) = m_clock_speed s.
Proof.
  revert s. induction queue as [|msg queue IH]; intros s; [done|].
  simpl. by rewrite IH, effect_clock_speed.
Qed.

Lemma effects_cpu_state queue s :
  m_cpu_state (foldl (λ s msg, fx msg s) s queue)
  = if asks_to_run queue then running else m_cpu_state s.
Proof.
  revert s. induction queue as [|msg queue IH]; intros s; [done|].
  simpl. rewrite IH, effect_cpu_state.
  by destruct (bool_decide _), (asks_to_run queue).
Qed.

Lemma sleeps_app tr1 tr2 : sleeps (tr1 ++ tr2) = sleeps tr1 ++ sleeps tr2.
Proof. unfold sleeps. apply omap_app. Qed.

Lemma sleeps_call_events msg i n : sleeps (call_events msg i n) = [].
Proof.
  revert i. unfold call_events.
  induction n as [|n IHn]; intros i; [done|]. simpl. apply IHn.
Qed.

Lemma sleeps_passes_trace table queue : sleeps (passes_trace table queue) = [].
Proof.
  unfold passes_trace. induction queue as [|msg queue IH]; [done|].
  by rewrite bind_cons, !sleeps_app, IH, sleeps_call_events.
Qed.

(** One pass of the worker, summed up. *)
Lemma pass_constructed d :
  constructed d → command (m_unhandled_messages d) →
  let s' := foldl (λ s msg, fx msg s) (m_scheduler d)
                  (m_unhandled_messages d) in
  pass d
  = (passes_trace (m_message_handlers d) (m_unhandled_messages d)
       ++ match m_cpu_state s' with
          | running => [EvExecute; EvSleep 250]
          | paused => []
          end,
     Ok (mk_cpu_daemon
           match m_cpu_state s' with
           | running => set_cpu (execute_op_at_pc (m_cpu s')) s'
           | paused => s'
           end [] (m_message_handlers d))).
Proof.
  intros Hd Hq s'. unfold cpu_thread_pass.
  rewrite (drain_queue_constructed d Hd Hq), run_bind_ok. simpl.
  fold s'. unfold get_cpu_state. by destruct (m_cpu_state s').
Qed.

(** The state after a pass is running when it was running before or a
    [SetStateRunning] message was queued, and paused otherwise: no message
    pauses a running daemon.  The pass executes one instruction and sleeps
    250 ms when that state is running, and does neither when it is paused.
    The clock speed and the handlers are as before and the queue is
    empty. *)
Theorem pass_runs_iff_running d :
  constructed d → command (m_unhandled_messages d) →
  ∃ tr d',
    pass d = (tr, Ok d')
    ∧ m_cpu_state (m_scheduler d')
      = (if asks_to_run (m_unhandled_messages d) then running
         else m_cpu_state (m_scheduler d))
    ∧ count_events is_execute tr
      = match m_cpu_state (m_scheduler d') with
        | running => 1%nat
        | paused => 0%nat
        end
    ∧ sleeps tr
      = match m_cpu_state (m_scheduler d') with
        | running => [250]
        | paused => []
        end
    ∧ m_clock_speed (m_scheduler d') = m_clock_speed (m_scheduler d)
    ∧ m_message_handlers d' = m_message_handlers d
    ∧ m_unhandled_messages d' = [].
Proof.
  intros Hd Hq. eexists _, _. split; [apply (pass_constructed d Hd Hq)|].
  rewrite count_events_app, count_passes_trace, sleeps_app,
    sleeps_passes_trace by done.
  simpl.
  pose proof (effects_cpu_state (m_unhandled_messages d) (m_scheduler d))
    as Hst.
  pose proof (effects_clock_speed (m_unhandled_messages d) (m_scheduler d))
    as Hclk.
  destruct (m_cpu_state (foldl _ _ _)) eqn:E; simpl; rewrite ?E;
    repeat split; try done; lia.
Qed.

Lemma constructed_same_table d d' :
  constructed d → m_message_handlers d' = m_message_handlers d →
  constructed d'.
Proof. intros (c & d0 & ? & ?) ?. exists c, d0. split; congruence. Qed.

Lemma thread_loop_step fuel (arrivals : nat → list cpu_message) d tr d' :
  pass (push_all (arrivals 0%nat) d) = (tr, Ok d') →
  cpu_thread_loop execute_op_at_pc (S fuel) arrivals false d
  = (tr ++ fst (cpu_thread_loop execute_op_at_pc fuel (λ k, arrivals (S k))
                  false d'),
     snd (cpu_thread_loop execute_op_at_pc fuel (λ k, arrivals (S k))
            false d')).
Proof.
  intros Hpass. cbn [cpu_thread_loop]. rewrite Hpass.
  by destruct (cpu_thread_loop _ _ _ _ _).
Qed.

(** With no message queued and none arriving, a paused worker goes round
    its loop without any event, not even a sleep, and leaves the daemon as
    it is; a running worker executes one instruction and sleeps 250 ms in
    each pass, so that [fuel] passes run [execute_op_at_pc] [fuel] times on
    the machine and change nothing else. *)
Theorem idle_worker fuel d :
  m_unhandled_messages d = [] →
  thread fuel (λ _, []) d
  = match m_cpu_state (m_scheduler d) with
    | paused => ([], Looping false d)
    | running =>
        (mjoin (replicate fuel [EvExecute; EvSleep 250]),
         Looping false
           (with_cpu (Nat.iter fuel execute_op_at_pc (m_cpu (m_scheduler d)))
                     d))
    end.
Proof.
  unfold cpu_thread. revert d. induction fuel as [|fuel IH]; intros d Hq.
  - destruct d as [[clk c st] q table]. simpl in *. subst q.
    by destruct st.
  - destruct d as [[clk c st] q table]. simpl in Hq. subst q.
    destruct st.
    + rewrite (thread_loop_step fuel _ _ []
                 (mk_cpu_daemon (mk_scheduler clk c paused) [] table))
        by reflexivity.
      by rewrite (IH (mk_cpu_daemon (mk_scheduler clk c paused) [] table)).
    + rewrite (thread_loop_step fuel _ _ [EvExecute; EvSleep 250]
                 (mk_cpu_daemon
                    (mk_scheduler clk (execute_op_at_pc c) running)
                    [] table))
        by reflexivity.
      rewrite (IH (mk_cpu_daemon
                     (mk_scheduler clk (execute_op_at_pc c) running)
                     [] table)) by done.
      cbn [m_cpu_state m_scheduler m_cpu fst snd]. unfold with_cpu.
      by rewrite Nat.iter_succ_r.
Qed.

(** Once the state is running it stays running, whatever messages of the
    command types arrive: after [fuel] passes the worker is in its loop, it
    has executed [fuel] instructions and slept [fuel] times 250 ms, and the
    clock speed is what it was. *)
Theorem running_worker_keeps_running fuel
    (arrivals : nat → list cpu_message) d :
  constructed d →
  m_cpu_state (m_scheduler d) = running →
  command (m_unhandled_messages d) →
  (∀ k, command (arrivals k)) →
  ∃ tr d',
    thread fuel arrivals d = (tr, Looping false d')
    ∧ m_cpu_state (m_scheduler d') = running
    ∧ count_events is_execute tr = fuel
    ∧ sleeps tr = replicate fuel 250
    ∧ m_clock_speed (m_scheduler d') = m_clock_speed (m_scheduler d).
Proof.
  unfold cpu_thread. revert arrivals d.
  induction fuel as [|fuel IH]; intros arrivals d Hd Hst Hq Harr.
  - by exists [], d.
  - set (d1 := push_all (arrivals 0%nat) d).
    assert (constructed d1) as Hd1
      by (apply (constructed_same_table d); [done|];
          unfold d1; by rewrite push_all_eq).
    assert (command (m_unhandled_messages d1)) as Hq1.
    { unfold d1. rewrite push_all_eq. simpl. apply Forall_app. by split. }
    assert (m_scheduler d1 = m_scheduler d) as Hs1
      by (unfold d1; by rewrite push_all_eq).
    pose proof (pass_constructed d1 Hd1 Hq1) as Hpass. cbn zeta in Hpass.
    pose proof (effects_cpu_state (m_unhandled_messages d1) (m_scheduler d1))
      as Hrun.
    rewrite Hs1, Hst in Hrun.
    assert (m_cpu_state
              (foldl (λ s msg, fx msg s) (m_scheduler d1)
                     (m_unhandled_messages d1)) = running) as Hrun'
      by (rewrite Hs1, Hrun; by destruct (asks_to_run _)).
    rewrite Hrun' in Hpass.
    rewrite (thread_loop_step _ _ _ _ _ Hpass).
    edestruct (IH (λ k, arrivals (S k))) as (tr & d' & -> & ? & Hn & Hsl & Hclk);
      [eapply (constructed_same_table d1); [done|reflexivity]
      |exact Hrun'|by constructor|intros k; apply Harr|].
    eexists _, d'. split; [reflexivity|]. simpl in Hclk. cbn [fst snd].
    rewrite !count_events_app, count_passes_trace, !sleeps_app,
      sleeps_passes_trace, Hn, Hsl by done.
    rewrite Hclk, effects_clock_speed, Hs1. simpl.
    repeat split; try done; lia.
Qed.

(** Until a [SetStateRunning] message arrives the worker of a paused daemon
    executes no instruction and never sleeps, whatever other messages of
    the command types it handles. *)
Theorem paused_worker_executes_nothing fuel
    (arrivals : nat → list cpu_message) d :
  constructed d →
  m_cpu_state (m_scheduler d) = paused →
  command (m_unhandled_messages d) →
  (∀ k, command (arrivals k)) →
  asks_to_run (m_unhandled_messages d) = false →
  (∀ k, asks_to_run (arrivals k) = false) →
  ∃ tr d',
    thread fuel arrivals d = (tr, Looping false d')
    ∧ m_cpu_state (m_scheduler d') = paused
    ∧ count_events is_execute tr = 0%nat
    ∧ sleeps tr = [].
Proof.
  unfold cpu_thread. revert arrivals d.
  induction fuel as [|fuel IH]; intros arrivals d Hd Hst Hq Harr Hno Hnos.
  - by exists [], d.
  - set (d1 := push_all (arrivals 0%nat) d).
    assert (constructed d1) as Hd1
      by (apply (constructed_same_table d); [done|];
          unfold d1; by rewrite push_all_eq).
    assert (command (m_unhandled_messages d1)) as Hq1.
    { unfold d1. rewrite push_all_eq. simpl. apply Forall_app. by split. }
    assert (m_scheduler d1 = m_scheduler d) as Hs1
      by (unfold d1; by rewrite push_all_eq).
    assert (asks_to_run (m_unhandled_messages d1) = false) as Hno1.
    { unfold d1. rewrite push_all_eq. simpl. unfold asks_to_run in *.
      by rewrite existsb_app, Hno, Hnos. }
    pose proof (pass_constructed d1 Hd1 Hq1) as Hpass. cbn zeta in Hpass.
    assert (m_cpu_state
              (foldl (λ s msg, fx msg s) (m_scheduler d1)
                     (m_unhandled_messages d1)) = paused) as Hpaused
      by (by rewrite effects_cpu_state, Hno1, Hs1).
    rewrite Hpaused in Hpass.
    rewrite (thread_loop_step _ _ _ _ _ Hpass).
    edestruct (IH (λ k, arrivals (S k))) as (tr & d' & -> & ? & Hn & Hsl);
      [eapply (constructed_same_table d1); [done|reflexivity]
      |exact Hpaused|by constructor|intros k; apply Harr|done
      |intros k; apply Hnos|].
    eexists _, d'. split; [reflexivity|]. cbn [fst snd].
    rewrite !count_events_app, count_passes_trace, !sleeps_app,
      sleeps_passes_trace, Hn, Hsl by done.
    simpl. repeat split; try done; lia.
Qed.

Lemma first_of_type_last queue :
  Exists (λ msg, m_type msg = _last) queue →
  ∃ queue1 msg queue2,
    queue = queue1 ++ msg :: queue2 ∧ command queue1 ∧ m_type msg = _last.
Proof.
  induction queue as [|m queue IH]; [by intros ?%Exists_nil|].
  destruct (decide (m_type m = _last)) as [Hm|Hm].
  - intros _. by exists [], m, queue.
  - intros [?|Hex]%Exists_cons; [done|].
    destruct (IH Hex) as (queue1 & msg & queue2 & -> & ? & ?).
    exists (m :: queue1), msg, queue2. repeat split; [|done].
    by constructor.
Qed.

(** A message whose type is the end marker [_last] ends the worker thread
    in the pass that finds it in the queue: [at] throws in the inner loop,
    so before that pass executes any instruction or sleeps. *)
Theorem last_message_ends_the_worker fuel
    (arrivals : nat → list cpu_message) d :
  constructed d →
  Exists (λ msg, m_type msg = _last)
         (m_unhandled_messages d ++ arrivals 0%nat) →
  ∃ tr,
    thread (S fuel) arrivals d = (tr, Terminated)
    ∧ count_events is_execute tr = 0%nat
    ∧ sleeps tr = [].
Proof.
  intros Hd (queue1 & msg & queue2 & Heq & Hq1 & Hmsg)%first_of_type_last.
  unfold cpu_thread. cbn [cpu_thread_loop].
  unfold cpu_thread_pass, drain_queue. rewrite push_all_eq. simpl.
  rewrite Heq.
  rewrite (drain_at_unknown_type (m_message_handlers d) queue1 msg queue2).
  - simpl. eexists. split; [reflexivity|].
    rewrite count_events_app, count_passes_trace, sleeps_app,
      sleeps_passes_trace by done.
    simpl. split; [lia|done].
  - by apply constructed_slots.
  - apply as_constructed_table in Hd. by rewrite Hd, Hmsg.
Qed.

(** A [LoadROM] and a [SetStateRunning] message sent together are handled
    in one pass of the worker, and their order does not matter: the pass
    ends running, with the machine reset, loaded at 0x200 and advanced by
    one instruction. *)
Theorem LoadROM_and_SetStateRunning_commute d (load run : cpu_message) :
  constructed d →
  m_unhandled_messages d = [] →
  m_type load = LoadROM →
  m_type run = SetStateRunning →
  snd (pass (push_all [load; run] d)) = snd (pass (push_all [run; load] d))
  ∧ snd (pass (push_all [load; run] d))
    = Ok (mk_cpu_daemon
            (mk_scheduler (m_clock_speed (m_scheduler d))
               (execute_op_at_pc
                  (snd (load_rom (m_data load) 0x200
                          (reset (m_cpu (m_scheduler d))))))
               running)
            [] (m_message_handlers d)).
Proof.
  intros Hd Hq Hload Hrun.
  assert (∀ msgs, msgs = [load; run] ∨ msgs = [run; load] →
    snd (pass (push_all msgs d))
    = Ok (mk_cpu_daemon
            (mk_scheduler (m_clock_speed (m_scheduler d))
               (execute_op_at_pc
                  (snd (load_rom (m_data load) 0x200
                          (reset (m_cpu (m_scheduler d))))))
               running)
            [] (m_message_handlers d))) as H.
  { intros msgs Hmsgs.
    rewrite (pass_constructed (push_all msgs d)).
    - rewrite push_all_eq, Hq. simpl.
      destruct Hmsgs as [-> | ->]; simpl; unfold effect;
        rewrite Hload, Hrun; simpl; by rewrite ?Hload, ?Hrun.
    - apply (constructed_same_table d); [done|]. by rewrite push_all_eq.
    - rewrite push_all_eq, Hq. simpl.
      destruct Hmsgs as [-> | ->]; repeat constructor; congruence. }
  split; [|apply H; by left].
  rewrite !H; [done|by right|by left].
Qed.

End WorkerLife.

(** ** The log pane *)

Section GuiFacts.

Import Gui.

Lemma printed_app ops1 ops2 :
  printed (ops1 ++ ops2) = printed ops1 ++ printed ops2.
Proof. unfold printed. apply omap_app. Qed.

Lemma printed_print_lines (lines : list string) (y : Z) :
  printed (print_lines lines y)
  = imap (λ i line, (y - Z.of_nat i, line)) lines.
Proof.
  revert y. induction lines as [|line lines IH]; intros y; [done|].
  cbn [print_lines]. change (printed (Print y 1 line :: ?ops))
    with ((y, line) :: printed ops).
  rewrite IH, imap_cons. f_equal; [f_equal; lia|].
  apply imap_ext. intros i l _. simpl. f_equal. lia.
Qed.

Lemma draw_size_in_window (h : Z) (m_gui_log : list string) :
  1 ≤ h < 2 ^ 63 →
  update_log_window (Some h) m_gui_log
  = print_lines (take (Z.to_nat (h - 1)) (reverse m_gui_log)) (h - 1)
      ++ [Border; Refresh].
Proof.
  intros Hh. unfold update_log_window, to_size_t.
  rewrite Z.mod_small by lia. case_bool_decide as Hcmp; [done|].
  rewrite Nat2Z.id.
  rewrite !take_ge; [done|rewrite length_reverse; lia|by rewrite length_reverse].
Qed.

Lemma print_lines_imap (lines : list string) (y : Z) :
  print_lines lines y = imap (λ i line, Print (y - Z.of_nat i) 1 line) lines.
Proof.
  revert y. induction lines as [|line lines IH]; intros y; [done|].
  cbn [print_lines]. rewrite IH, imap_cons. f_equal; [f_equal; lia|].
  apply imap_ext. intros i l _. simpl. f_equal. lia.
Qed.

(** In a log window of [h] rows what [update_log_window] asks of curses is,
    in this order: one [mvwprintw] for each of the newest lines of the log,
    at most [h - 1] of them and the newest first, line number [i] from the
    end of the log at column 1 of row [h - 1 - i]; then the border; then
    the refresh. *)
Theorem log_window_prints_newest_lines (h : Z) (m_gui_log : list string) :
  1 ≤ h < 2 ^ 63 →
  update_log_window (Some h) m_gui_log
  = imap (λ i line, Print (h - 1 - Z.of_nat i) 1 line)
         (take (Z.to_nat (h - 1)) (reverse m_gui_log))
      ++ [Border; Refresh]
  ∧ length (take (Z.to_nat (h - 1)) (reverse m_gui_log))
    = Nat.min (Z.to_nat (h - 1)) (length m_gui_log).
Proof.
  intros Hh. rewrite (draw_size_in_window h m_gui_log Hh). split.
  - by rewrite print_lines_imap.
  - by rewrite length_take, length_reverse.
Qed.

(** Every line is printed on a row from 1 to [h - 1]: never on row 0, the
    top border, and never below the window.  The newest line, when there is
    one and the window has more than one row, is on row [h - 1], the last
    row of the window. *)
Theorem log_window_rows (h : Z) (m_gui_log : list string) :
  1 ≤ h < 2 ^ 63 →
  (∀ y text, (y, text) ∈ printed (update_log_window (Some h) m_gui_log) →
     1 ≤ y ≤ h - 1)
  ∧ (∀ newest, last m_gui_log = Some newest → 1 < h →
       printed (update_log_window (Some h) m_gui_log) !! 0%nat
       = Some (h - 1, newest)).
Proof.
  intros Hh. rewrite (draw_size_in_window h m_gui_log Hh).
  rewrite printed_app, printed_print_lines. simpl. rewrite app_nil_r. split.
  - intros y text (i & line & [= -> ->] & Hi)%elem_of_lookup_imap.
    apply lookup_lt_Some in Hi. rewrite length_take in Hi. lia.
  - intros newest Hlast Hh1. rewrite list_lookup_imap.
    rewrite lookup_take_lt by lia.
    rewrite <- head_lookup, head_reverse, Hlast. simpl. do 2 f_equal. lia.
Qed.

End GuiFacts.

(** ** The further properties, on the daemon the constructor makes *)

Lemma fresh_daemon_slots (queue : list cpu_message) :
  Forall (λ msg, m_type msg ≠ _last) queue →
  Forall (λ msg, is_Some (m_message_handlers fresh_daemon
                            !! type_index (m_type msg))) queue.
Proof.
  intros Hq. eapply Forall_impl; [exact Hq|]. intros msg Hmsg. simpl in Hmsg.
  destruct (m_type msg); simpl; eauto. done.
Defined.

Lemma sent_messages_are_handled_in_order_witness :
  let msgs := [mk_cpu_message SetStateRunning [] 0;
               mk_cpu_message KeyUp [0x1] 0] in
  snd (drain_queue (push_all msgs fresh_daemon))
  = Ok (mk_cpu_daemon (mk_scheduler 500 zeroed running) []
          (m_message_handlers fresh_daemon)).
Proof.
  intros msgs.
  rewrite (sent_messages_are_handled_in_order msgs fresh_daemon).
  - reflexivity.
  - reflexivity.
  - apply fresh_daemon_slots. repeat constructor; discriminate.
Defined.

Lemma drain_stops_at_unknown_type_witness :
  let run := mk_cpu_message SetStateRunning [] 0 in
  let bad := mk_cpu_message _last [] 0 in
  let load := mk_cpu_message LoadROM [0x12; 0x34] 0x200 in
  drain (m_message_handlers fresh_daemon) [run; bad; load]
        (m_scheduler fresh_daemon)
  = ([EvLock; EvCall SetStateRunning 0 run; EvPop; EvUnlock;
      EvLock; EvThrow], out_of_range).
Proof.
  intros run bad load.
  apply (drain_stops_at_unknown_type (m_message_handlers fresh_daemon)
           [run] bad [load] (m_scheduler fresh_daemon)).
  - apply fresh_daemon_slots. repeat constructor; discriminate.
  - reflexivity.
Defined.

Lemma each_message_is_popped_once_witness :
  count_events is_pop
    (fst (drain (m_message_handlers fresh_daemon)
            [mk_cpu_message KeyDown [0x1] 0; mk_cpu_message KeyUp [0x1] 0]
            (m_scheduler fresh_daemon)))
  = 2%nat.
Proof.
  apply (each_message_is_popped_once (m_message_handlers fresh_daemon)
           [mk_cpu_message KeyDown [0x1] 0; mk_cpu_message KeyUp [0x1] 0]
           (m_scheduler fresh_daemon)).
  apply fresh_daemon_slots. repeat constructor; discriminate.
Defined.

(** The daemon of the constructor, set running. *)
Lemma running_daemon_as_constructed :
  as_constructed Cpu.reset Cpu.load_rom
    (set_scheduler (mk_scheduler 500 zeroed running) fresh_daemon).
Proof. exists zeroed, fresh_daemon. split; reflexivity. Defined.

Lemma pass_runs_iff_running_witness :
  ∃ tr d',
    cpu_thread_pass (λ c, c)
      (push_all [mk_cpu_message SetStateRunning [] 0] fresh_daemon)
    = (tr, Ok d')
    ∧ m_cpu_state (m_scheduler d') = running.
Proof.
  destruct (pass_runs_iff_running Cpu.reset Cpu.load_rom (λ c, c)
              (push_all [mk_cpu_message SetStateRunning [] 0] fresh_daemon))
    as (tr & d' & Hpass & Hstate & _).
  - exists zeroed, fresh_daemon. split; reflexivity.
  - repeat constructor; discriminate.
  - exists tr, d'. split; [exact Hpass|exact Hstate].
Defined.

Lemma idle_worker_witness :
  cpu_thread (λ c, c) 3 (λ _, []) fresh_daemon
  = ([], Looping false fresh_daemon).
Proof. exact (idle_worker (λ c, c) 3 fresh_daemon eq_refl). Defined.

Lemma running_worker_keeps_running_witness :
  ∃ tr d',
    cpu_thread (λ c, c) 3 (λ _, [mk_cpu_message SetStatePaused [] 0])
      (set_scheduler (mk_scheduler 500 zeroed running) fresh_daemon)
    = (tr, Looping false d')
    ∧ m_cpu_state (m_scheduler d') = running
    ∧ count_events is_execute tr = 3%nat.
Proof.
  destruct (running_worker_keeps_running Cpu.reset Cpu.load_rom (λ c, c) 3
              (λ _, [mk_cpu_message SetStatePaused [] 0])
              (set_scheduler (mk_scheduler 500 zeroed running) fresh_daemon))
    as (tr & d' & Hthread & Hstate & Hcount & _).
  - apply running_daemon_as_constructed.
  - reflexivity.
  - constructor.
  - intros k. repeat constructor; discriminate.
  - exists tr, d'. split; [exact Hthread|]. split; [exact Hstate|exact Hcount].
Defined.

Lemma paused_worker_executes_nothing_witness :
  ∃ tr d',
    cpu_thread (λ c, c) 3
      (λ _, [mk_cpu_message LoadROM [0x12; 0x34] 0x200]) fresh_daemon
    = (tr, Looping false d')
    ∧ m_cpu_state (m_scheduler d') = paused
    ∧ count_events is_execute tr = 0%nat
    ∧ sleeps tr = [].
Proof.
  apply (paused_worker_executes_nothing Cpu.reset Cpu.load_rom (λ c, c) 3
           (λ _, [mk_cpu_message LoadROM [0x12; 0x34] 0x200]) fresh_daemon).
  - apply fresh_daemon_as_constructed.
  - reflexivity.
  - constructor.
  - intros k. repeat constructor; discriminate.
  - reflexivity.
  - intros k. reflexivity.
Defined.

Lemma last_message_ends_the_worker_witness :
  ∃ tr,
    cpu_thread (λ c, c) 2 (λ _, [mk_cpu_message _last [] 0]) fresh_daemon
    = (tr, Terminated)
    ∧ count_events is_execute tr = 0%nat
    ∧ sleeps tr = [].
Proof.
  apply (last_message_ends_the_worker Cpu.reset Cpu.load_rom (λ c, c) 1
           (λ _, [mk_cpu_message _last [] 0]) fresh_daemon).
  - apply fresh_daemon_as_constructed.
  - apply Exists_cons. left. reflexivity.
Defined.

Lemma LoadROM_and_SetStateRunning_commute_witness :
  let load := mk_cpu_message LoadROM [0x12; 0x34] 0x200 in
  let run := mk_cpu_message SetStateRunning [] 0 in
  snd (cpu_thread_pass (λ c, c) (push_all [load; run] fresh_daemon))
  = snd (cpu_thread_pass (λ c, c) (push_all [run; load] fresh_daemon)).
Proof.
  intros load run.
  apply (LoadROM_and_SetStateRunning_commute Cpu.reset Cpu.load_rom (λ c, c)
           fresh_daemon load run).
  - apply fresh_daemon_as_constructed.
  - reflexivity.
  - reflexivity.
  - reflexivity.
Defined.

Lemma log_window_prints_newest_lines_witness :
  Gui.update_log_window (Some 3) ["a"; "b"; "c"]%string
  = [Gui.Print 2 1 "c"; Gui.Print 1 1 "b"; Gui.Border; Gui.Refresh].
Proof.
  apply (log_window_prints_newest_lines 3 ["a"; "b"; "c"]%string). lia.
Defined.

Lemma log_window_rows_witness :
  Gui.printed (Gui.update_log_window (Some 3) ["a"; "b"; "c"]%string)
    !! 0%nat
  = Some (2, "c"%string).
Proof.
  apply (log_window_rows 3 ["a"; "b"; "c"]%string); [lia|reflexivity|lia].
Defined.
